(** * NotesCore text pipeline: validation, AppleScript escaping, HTML
      sanitising, Markdown rendering and Markdown extraction.

    A shallow embedding of the string functions of the [NotesCore] class
    ([validateInput], [escapeForAppleScript], [sanitizeHTML],
    [convertToHTML], [convertHTMLToMarkdown]).  JavaScript strings are
    sequences of UTF-16 code units; the regular expressions of the source
    are values of a small regex syntax, run by a backtracking matcher that
    follows the ECMAScript matching rules (greedy and lazy quantifiers,
    captures, negative lookahead, [\b], [^], [$], the [i] and [m] flags),
    and [String.prototype.replace] is the left-to-right scan of the
    standard. *)

From Stdlib Require Import String Ascii Decimal DecimalString.
From Stdlib Require Import List NArith ZArith Arith Bool Lia.
Import ListNotations.

Set Implicit Arguments.
Local Open Scope N_scope.

(* ------------------------------------------------------------------ *)
(** ** JavaScript strings *)

(** A UTF-16 code unit, and a string as the list of its code units. *)
Definition cu := N.
Definition str := list cu.

(** An ASCII literal of the source as a [str]. *)
Definition lit (s : string) : str := map N_of_ascii (list_ascii_of_string s).

Definition NUL : cu := 0.
Definition TAB : cu := 9.
Definition LF : cu := 10.
Definition VT : cu := 11.
Definition FF : cu := 12.
Definition CR : cu := 13.
Definition US : cu := 31.
Definition SP : cu := 32.
Definition DQ : cu := 34.       (* the double quote *)
Definition SQ : cu := 39.       (* the apostrophe *)
Definition BS : cu := 92.       (* the backslash *)
Definition LBRACE : cu := 123.
Definition RBRACE : cu := 125.

(** A literal between double quotes, as in [style="..."]. *)
Definition quoted (s : string) : str := DQ :: lit s ++ [DQ].

Definition in_range (lo hi c : cu) : bool := (lo <=? c) && (c <=? hi).

(** LineTerminator of the standard: LF, CR, U+2028, U+2029. *)
Definition is_line_terminator (c : cu) : bool :=
  (c =? LF) || (c =? CR) || (c =? 8232) || (c =? 8233).

(** WhiteSpace and LineTerminator together: what [\s] matches and what
    [trim] removes. *)
Definition is_space (c : cu) : bool :=
  (c =? TAB) || (c =? VT) || (c =? FF) || (c =? SP) || (c =? 160)
  || (c =? 5760) || in_range 8192 8202 c || (c =? 8239) || (c =? 8287)
  || (c =? 12288) || (c =? 65279) || is_line_terminator c.

Definition is_digit (c : cu) : bool := in_range 48 57 c.
Definition is_upper (c : cu) : bool := in_range 65 90 c.
Definition is_lower (c : cu) : bool := in_range 97 122 c.

(** [\w] and the word characters of [\b]: [A-Za-z0-9_]. *)
Definition is_word (c : cu) : bool :=
  is_upper c || is_lower c || is_digit c || (c =? 95).

(** Canonicalize of the standard for the [i] flag without the [u] flag.
    ASCII letters fold to upper case.  A code unit of 128 or more never
    folds to an ASCII one, and every character the patterns of this
    program name is ASCII, so such a unit is kept as it is. *)
Definition canonicalize (c : cu) : cu := if is_lower c then c - 32 else c.

(* ------------------------------------------------------------------ *)
(** ** Regular expressions *)

Record flags := { ignoreCase : bool; multiline : bool }.

Definition fl_none := {| ignoreCase := false; multiline := false |}.
Definition fl_i := {| ignoreCase := true; multiline := false |}.
Definition fl_m := {| ignoreCase := false; multiline := true |}.

(** The members of a character class. *)
Inductive citem :=
| CChar (c : cu)
| CRange (lo hi : cu)
| CSpace            (* \s *)
| CNotSpace         (* \S *)
| CWord             (* \w *)
| CDigit.           (* \d *)

Inductive regex :=
| Eps
| Char (c : cu)
| Class (negated : bool) (items : list citem)
| Dot
| Seq (r1 r2 : regex)
| Alt (r1 r2 : regex)
| Quant (min : nat) (max : option nat) (greedy : bool) (r : regex)
| Group (n : nat) (r : regex)       (* the n-th capturing group *)
| NegLook (r : regex)               (* (?!r) *)
| WordB                             (* \b *)
| Bol                               (* ^ *)
| Eol.                              (* $ *)

Declare Scope regex_scope.
Delimit Scope regex_scope with re.
Bind Scope regex_scope with regex.
Infix ";;" := Seq (at level 61, right associativity) : regex_scope.

(** The literal characters of a pattern, one after another. *)
Fixpoint chars_of (l : str) : regex :=
  match l with
  | [] => Eps
  | [c] => Char c
  | c :: l' => Seq (Char c) (chars_of l')
  end.
Definition chars (s : string) : regex := chars_of (lit s).

Definition star (r : regex) := Quant 0 None true r.          (* r* *)
Definition plus (r : regex) := Quant 1 None true r.          (* r+ *)
Definition opt (r : regex) := Quant 0 (Some 1%nat) true r.   (* r? *)
Definition lazy_star (r : regex) := Quant 0 None false r.    (* r*? *)
Definition any := Class false [CSpace; CNotSpace].           (* [\s\S] *)
Definition space := Class false [CSpace].                    (* \s *)
Definition word := Class false [CWord].                      (* \w *)
Definition digit := Class false [CDigit].                    (* \d *)
Definition none_of (s : string) := Class true (map CChar (lit s)).
Definition one_of (s : string) := Class false (map CChar (lit s)).

(** The capturing groups inside a regex (a quantifier resets them at each
    iteration) and their number. *)
Fixpoint groups_of (r : regex) : list nat :=
  match r with
  | Seq r1 r2 | Alt r1 r2 => groups_of r1 ++ groups_of r2
  | Quant _ _ _ r' | NegLook r' => groups_of r'
  | Group n r' => n :: groups_of r'
  | _ => []
  end.

(* ------------------------------------------------------------------ *)
(** ** The matcher *)

(** A match state: the input before the current position (nearest
    character first), the input from the current position on, and the
    captures so far. *)
Record mstate := {
  before : str;
  after : str;
  caps : list (nat * str)
}.

(** The result of a matcher: a final state, a failure, or [Exhausted] when
    the iteration bound of a quantifier is used up ([m_never_exhausted]
    shows that this never happens). *)
Inductive mres := Hit (y : mstate) | Miss | Exhausted.

Definition cont := mstate -> mres.

Definition item_matches (it : citem) (c : cu) : bool :=
  match it with
  | CChar a => a =? c
  | CRange lo hi => in_range lo hi c
  | CSpace => is_space c
  | CNotSpace => negb (is_space c)
  | CWord => is_word c
  | CDigit => is_digit c
  end.

(** With the [i] flag a class member matches when some character it stands
    for has the canonical form of the input character; for the ASCII
    members used here that is the member tried on the character, on its
    upper-case and on its lower-case form. *)
Definition item_matches_i (it : citem) (c : cu) : bool :=
  item_matches it c
  || item_matches it (canonicalize c)
  || (is_upper c && item_matches it (c + 32)).

Definition class_matches (fl : flags) (negated : bool) (items : list citem)
    (c : cu) : bool :=
  xorb negated
    (existsb (fun it => if ignoreCase fl then item_matches_i it c
                        else item_matches it c) items).

Definition char_matches (fl : flags) (a c : cu) : bool :=
  if ignoreCase fl then canonicalize a =? canonicalize c else a =? c.

Definition advance (c : cu) (rest : str) (x : mstate) : mstate :=
  {| before := c :: before x; after := rest; caps := caps x |}.

(** One character, tested by [p]. *)
Definition step_char (p : cu -> bool) (k : cont) (x : mstate) : mres :=
  match after x with
  | c :: rest => if p c then k (advance c rest x) else Miss
  | [] => Miss
  end.

Definition word_before (x : mstate) : bool :=
  match before x with c :: _ => is_word c | [] => false end.
Definition word_after (x : mstate) : bool :=
  match after x with c :: _ => is_word c | [] => false end.

Definition at_bol (fl : flags) (x : mstate) : bool :=
  match before x with
  | [] => true
  | c :: _ => multiline fl && is_line_terminator c
  end.
Definition at_eol (fl : flags) (x : mstate) : bool :=
  match after x with
  | [] => true
  | c :: _ => multiline fl && is_line_terminator c
  end.

(** The characters consumed between state [x] and a later state [y]. *)
Definition consumed (x y : mstate) : str :=
  firstn (length (after x) - length (after y)) (after x).

Definition set_cap (n : nat) (s : str) (y : mstate) : mstate :=
  {| before := before y; after := after y;
     caps := (n, s) :: filter (fun p => negb (Nat.eqb (fst p) n)) (caps y) |}.

Definition clear_caps (gs : list nat) (x : mstate) : mstate :=
  {| before := before x; after := after x;
     caps := filter (fun p => negb (existsb (Nat.eqb (fst p)) gs)) (caps x) |}.

Definition or_else (a : mres) (b : unit -> mres) : mres :=
  match a with Miss => b tt | _ => a end.

(** RepeatMatcher of the standard, for a body matched by [mr] whose
    capturing groups are [gs]: at most [mx] and at least [mn] iterations
    more, from [x].  The captures of the body are reset at each iteration,
    and an iteration that consumes nothing once [mn] is reached is
    rejected, so [mn] plus the input left bounds the number of iterations;
    [fuel] starts above that bound. *)
Section Repeat.
Variable mr : cont -> mstate -> mres.
Variable gs : list nat.
Variable greedy : bool.
Variable k : cont.

Fixpoint repeat_matcher (fuel mn : nat) (mx : option nat) (x : mstate)
    {struct fuel} : mres :=
  match fuel with
  | O => Exhausted
  | S fuel' =>
      match mx with
      | Some O => k x
      | _ =>
          let d := fun y : mstate =>
            if Nat.eqb mn 0
               && Nat.eqb (length (after y)) (length (after x))
            then Miss
            else repeat_matcher fuel' (Nat.pred mn)
                   (option_map Nat.pred mx) y in
          let xr := clear_caps gs x in
          if negb (Nat.eqb mn 0) then mr d xr
          else if greedy then or_else (mr d xr) (fun _ => k x)
          else or_else (k x) (fun _ => mr d xr)
      end
  end.
End Repeat.

Section Matcher.
Variable fl : flags.

(** [m r k x]: match [r] at [x], then continue with [k]; the first
    success in the backtracking order of the standard. *)
Fixpoint m (r : regex) (k : cont) (x : mstate) {struct r} : mres :=
  match r with
  | Eps => k x
  | Char a => step_char (char_matches fl a) k x
  | Class negated items => step_char (class_matches fl negated items) k x
  | Dot => step_char (fun c => negb (is_line_terminator c)) k x
  | Seq r1 r2 => m r1 (m r2 k) x
  | Alt r1 r2 => or_else (m r1 k x) (fun _ => m r2 k x)
  | Quant mn mx greedy r' =>
      repeat_matcher (m r') (groups_of r') greedy k
        (S (mn + length (after x))) mn mx x
  | Group n r' => m r' (fun y => k (set_cap n (consumed x y) y)) x
  | NegLook r' =>
      match m r' Hit x with
      | Hit _ => Miss
      | Miss => k x
      | Exhausted => Exhausted
      end
  | WordB => if xorb (word_before x) (word_after x) then k x else Miss
  | Bol => if at_bol fl x then k x else Miss
  | Eol => if at_eol fl x then k x else Miss
  end.

(** The match of [r] that starts exactly at [x], if there is one. *)
Definition exec (r : regex) (x : mstate) : option mstate :=
  match m r Hit x with Hit y => Some y | _ => None end.
End Matcher.

(* ------------------------------------------------------------------ *)
(** ** String.prototype.replace *)

(** What a replacement sees of a match: the matched text, the captures,
    the input before the match and the input after it. *)
Record mresult := {
  matched : str;
  groups : list (nat * str);
  preceding : str;
  following : str
}.

Definition capture (n : nat) (res : mresult) : str :=
  match find (fun p => Nat.eqb (fst p) n) (groups res) with
  | Some p => snd p
  | None => []
  end.

Definition digit_val (c : cu) : nat := N.to_nat (c - 48).

(** GetSubstitution: the [$] patterns of a replacement string, for a regex
    with [ng] capturing groups. *)
Fixpoint expand (ng : nat) (res : mresult) (t : str) : str :=
  match t with
  | [] => []
  | c :: t1 =>
      if negb (c =? 36) then c :: expand ng res t1 else
      match t1 with
      | [] => [c]
      | d1 :: t2 =>
          if d1 =? 36 then 36 :: expand ng res t2
          else if d1 =? 38 then matched res ++ expand ng res t2
          else if d1 =? 96 then preceding res ++ expand ng res t2
          else if d1 =? 39 then following res ++ expand ng res t2
          else if is_digit d1 then
            let one :=
              let n1 := digit_val d1 in
              if Nat.leb 1 n1 && Nat.leb n1 ng
              then capture n1 res ++ expand ng res t2
              else c :: d1 :: expand ng res t2 in
            match t2 with
            | [] => one
            | d2 :: t3 =>
                if is_digit d2 then
                  let nn := (10 * digit_val d1 + digit_val d2)%nat in
                  if Nat.ltb ng nn then one
                  else if Nat.leb 1 nn then capture nn res ++ expand ng res t3
                  else c :: d1 :: d2 :: expand ng res t3
                else one
            end
          else c :: expand ng res t1
      end
  end.

(** A replacement is a string with [$] patterns or a function, whose
    result is used as it is. *)
Inductive replacement :=
| Template (t : str)
| Callback (f : mresult -> str).

Definition start_at (bef rest : str) : mstate :=
  {| before := bef; after := rest; caps := [] |}.

Definition result_of (bef rest : str) (z : mstate) : mresult :=
  {| matched := firstn (length rest - length (after z)) rest;
     groups := caps z;
     preceding := rev bef;
     following := after z |}.

Section Replace.
Variable fl : flags.
Variable r : regex.

Definition substitute (rep : replacement) (res : mresult) : str :=
  match rep with
  | Template t => expand (length (groups_of r)) res t
  | Callback f => f res
  end.

Variable rep : replacement.

(** The scan of a global replace.  [bef] is the input already passed and
    [skip] the number of characters of the last match still to pass; a
    match is looked for at every other position, the end of the input
    included, and after an empty match the scan moves on by one
    character, which is copied. *)
Fixpoint replace_go (skip : nat) (bef rest : str) {struct rest} : str :=
  match skip with
  | S n =>
      match rest with
      | c :: rest' => replace_go n (c :: bef) rest'
      | [] => []
      end
  | O =>
      match exec fl r (start_at bef rest) with
      | Some z =>
          substitute rep (result_of bef rest z) ++
          match rest with
          | c :: rest' =>
              match (length rest - length (after z))%nat with
              | O => c :: replace_go 0 (c :: bef) rest'
              | S n => replace_go n (c :: bef) rest'
              end
          | [] => []
          end
      | None =>
          match rest with
          | c :: rest' => c :: replace_go 0 (c :: bef) rest'
          | [] => []
          end
      end
  end.

(** [s.replace(/r/g, rep)] *)
Definition replace (s : str) : str := replace_go 0 [] s.

(** The scan of a replace without the [g] flag: the first match only. *)
Fixpoint replace_first_go (bef rest : str) {struct rest} : str :=
  match exec fl r (start_at bef rest) with
  | Some z => substitute rep (result_of bef rest z) ++ after z
  | None =>
      match rest with
      | c :: rest' => c :: replace_first_go (c :: bef) rest'
      | [] => []
      end
  end.

(** [s.replace(/r/, rep)] *)
Definition replace_first (s : str) : str := replace_first_go [] s.

(** [/r/.test(s)]: is there a match somewhere in [s]? *)
Fixpoint test_go (bef rest : str) {struct rest} : bool :=
  match exec fl r (start_at bef rest) with
  | Some _ => true
  | None =>
      match rest with
      | c :: rest' => test_go (c :: bef) rest'
      | [] => false
      end
  end.

Definition test (s : str) : bool := test_go [] s.
End Replace.

(** A global replace whose callback reads and writes a variable of the
    enclosing function (state [S]). *)
Section ReplaceWithState.
Variable S : Type.
Variable fl : flags.
Variable r : regex.
Variable f : S -> mresult -> S * str.

Fixpoint replace_st_go (st : S) (skip : nat) (bef rest : str)
    {struct rest} : S * str :=
  match skip with
  | Datatypes.S n =>
      match rest with
      | c :: rest' => replace_st_go st n (c :: bef) rest'
      | [] => (st, [])
      end
  | O =>
      match exec fl r (start_at bef rest) with
      | Some z =>
          let (st1, out) := f st (result_of bef rest z) in
          let (st2, tl) :=
            match rest with
            | c :: rest' =>
                match (length rest - length (after z))%nat with
                | O => let (st2, tl) := replace_st_go st1 0 (c :: bef) rest'
                       in (st2, c :: tl)
                | Datatypes.S n => replace_st_go st1 n (c :: bef) rest'
                end
            | [] => (st1, [])
            end in
          (st2, out ++ tl)
      | None =>
          match rest with
          | c :: rest' =>
              let (st2, tl) := replace_st_go st 0 (c :: bef) rest' in
              (st2, c :: tl)
          | [] => (st, [])
          end
      end
  end.

Definition replace_st (st : S) (s : str) : S * str :=
  replace_st_go st 0 [] s.
End ReplaceWithState.

(* ------------------------------------------------------------------ *)
(** ** Other string methods *)

Fixpoint drop_space (s : str) : str :=
  match s with
  | c :: s' => if is_space c then drop_space s' else s
  | [] => []
  end.

(** [s.trim()] *)
Definition trim (s : str) : str := rev (drop_space (rev (drop_space s))).

(** [s.substring(0, n)] *)
Definition substring0 (n : nat) (s : str) : str := firstn n s.

(** [s.split(sep)] for a separator of one code unit. *)
Fixpoint split_on (sep : cu) (s : str) : list str :=
  match s with
  | [] => [[]]
  | c :: s' =>
      if c =? sep then [] :: split_on sep s'
      else match split_on sep s' with
           | p :: ps => (c :: p) :: ps
           | [] => [[c]]
           end
  end.

(** [l.join('')] *)
Definition join (l : list str) : str := concat l.

(** [needle] is a prefix of [s]. *)
Fixpoint starts_with (needle s : str) : bool :=
  match needle, s with
  | [], _ => true
  | a :: needle', c :: s' => (a =? c) && starts_with needle' s'
  | _ :: _, [] => false
  end.

(** [s.includes(needle)] *)
Fixpoint includes (needle s : str) : bool :=
  starts_with needle s ||
  match s with
  | _ :: s' => includes needle s'
  | [] => false
  end.

(** [s.toLowerCase()] on the ASCII letters. *)
Definition lower1 (c : cu) : cu := if is_upper c then c + 32 else c.
Definition toLowerCase (s : str) : str := map lower1 s.

(** The decimal digits of a counter, as [`${n}`] gives them. *)
Definition decimal (n : nat) : str :=
  lit (NilEmpty.string_of_uint (Nat.to_uint n)).

(* ------------------------------------------------------------------ *)
(** ** JavaScript values and failures *)

(** The values a caller can pass where a string is expected: the
    primitives.  (An object is left out: it could bring a [replace] method
    of its own.) *)
Inductive value :=
| VUndefined
| VNull
| VBool (b : bool)
| VNumber (n : Z)
| VString (s : str).

(** ToBoolean *)
Definition truthy (v : value) : bool :=
  match v with
  | VUndefined | VNull => false
  | VBool b => b
  | VNumber n => negb (Z.eqb n 0)
  | VString s => match s with [] => false | _ => true end
  end.

Definition is_string (v : value) : bool :=
  match v with VString _ => true | _ => false end.

(** What a call can throw: [new Error(msg)], or the TypeError of the
    runtime when a method is called on a value that has none. *)
Inductive exn :=
| Error (msg : string)
| TypeError.

Inductive outcome (A : Type) :=
| Return (a : A)
| Throw (e : exn).
Arguments Return {A} a.
Arguments Throw {A} e.

(** The three failures of validation, by their messages. *)
Definition InvalidType : exn := Error "Invalid input: expected string".
Definition TooLong : exn := Error "Title too long (max 255 chars)".
Definition EmptyInput : exn := Error "Title cannot be empty".

(** [v.replace(...)] and the other string methods exist on strings only. *)
Definition as_string (v : value) : outcome str :=
  match v with
  | VString s => Return s
  | _ => Throw TypeError
  end.

Module NotesCore.

(* ---------------------------------------------------------------- *)
(** *** validateInput *)

Definition validateInput (input : value) (type : string) : outcome str :=
  match input with
  | VString s =>
      if negb (truthy input) then Throw InvalidType
      else if String.eqb type "title" && Nat.ltb 255 (length s)
      then Throw TooLong
      else if String.eqb type "title" && Nat.eqb (length (trim s)) 0
      then Throw EmptyInput
      else Return (trim s)
  | _ => Throw InvalidType
  end.

(* ---------------------------------------------------------------- *)
(** *** escapeForAppleScript *)

(** [/\btell\b/gi] *)
Definition re_tell : regex := (WordB ;; chars "tell" ;; WordB)%re.
(** [/\bend\s+tell\b/gi] *)
Definition re_end_tell : regex :=
  (WordB ;; chars "end" ;; plus space ;; chars "tell" ;; WordB)%re.
(** [/[\x00-\x08\x0B\x0C\x0E-\x1F\x7F]/g] *)
Definition re_control : regex :=
  Class false [CRange 0 8; CChar 11; CChar 12; CRange 14 31; CChar 127].
(** [/[\u2028\u2029]/g] *)
Definition re_separators : regex := Class false [CChar 0x2028; CChar 0x2029].
(** [/[\u200B-\u200F\u202A-\u202E\u2060-\u2064\u206A-\u206F\uFEFF]/g] *)
Definition re_zero_width : regex :=
  Class false [CRange 0x200B 0x200F; CRange 0x202A 0x202E;
               CRange 0x2060 0x2064; CRange 0x206A 0x206F; CChar 0xFEFF].

Definition maxLength : nat := N.to_nat 50000.
Definition marker : str := lit "... (truncated)".

(** The first step: the two keywords. *)
Definition neutralize (text : str) : str :=
  let text := replace fl_i re_tell (Template (lit "t_e_l_l")) text in
  replace fl_i re_end_tell (Template (lit "e_n_d_t_e_l_l")) text.

(** The control, separator and zero-width characters that are removed. *)
Definition strip (text : str) : str :=
  let text := replace fl_none re_control (Template []) text in
  let text := replace fl_none re_separators (Template []) text in
  replace fl_none re_zero_width (Template []) text.

(** The two characters backslash-n and backslash-t. *)
Definition escaped_n : str := [BS; 110].
Definition escaped_t : str := [BS; 116].

(** The chain of escapes, in the order of the source. *)
Definition escape_chain (text : str) : str :=
  let text := replace fl_none (Char BS) (Template [BS; BS]) text in
  let text := replace fl_none (Char DQ) (Template [BS; DQ]) text in
  let text := replace fl_none (Char CR ;; Char LF) (Template escaped_n) text in
  let text := replace fl_none (Char CR) (Template escaped_n) text in
  let text := replace fl_none (Char LF) (Template escaped_n) text in
  let text := replace fl_none (Class false [CChar TAB]) (Template escaped_t) text in
  let text := replace fl_none (Class false [CChar FF; CChar VT]) (Template [SP]) text in
  let text := replace fl_none (Char RBRACE) (Template []) text in
  replace fl_none (Char LBRACE) (Template []) text.

Definition truncate (text : str) : str :=
  if Nat.ltb maxLength (length text)
  then substring0 maxLength text ++ marker
  else text.

(** The text before the length check. *)
Definition escaped (text : str) : str := escape_chain (strip (neutralize text)).

Definition escape_text (text : str) : str := truncate (escaped text).

Definition escapeForAppleScript (text : value) : outcome str :=
  if negb (truthy text) then Return []
  else match as_string text with
       | Return s => Return (escape_text s)
       | Throw e => Throw e
       end.

(* ---------------------------------------------------------------- *)
(** *** sanitizeHTML *)

(** [/<script\b [^<]* (?: (?!<\/script>) <[^<]* )* <\/script>/gi], written
    here with spaces between its parts. *)
Definition re_script_block : regex :=
  (chars "<script" ;; WordB ;; star (none_of "<") ;;
   star (NegLook (chars "</script>") ;; Char 60 ;; star (none_of "<")) ;;
   chars "</script>")%re.

(** [/\s* on\w+ \s* = \s* [QUOTE] [^QUOTE]* [QUOTE]/gi], where QUOTE is the
    double quote or the apostrophe. *)
Definition quote_class (negated : bool) : regex :=
  Class negated [CChar DQ; CChar SQ].
Definition re_handler : regex :=
  (star space ;; chars "on" ;; plus word ;; star space ;; Char 61 ;;
   star space ;; quote_class false ;; star (quote_class true) ;;
   quote_class false)%re.

(** [/javascript:/gi] *)
Definition re_javascript : regex := chars "javascript:".

Definition dangerous : list string :=
  ["script"; "iframe"; "object"; "embed"; "form"]%string.

(** [new RegExp(`<${tag}\\b[^>]*>(?:.*?<\\/${tag}>)?`, 'gi')]: the opening
    tag and, when there is one on the same line, the text up to the first
    closing tag. *)
Definition re_tag (tag : string) : regex :=
  (chars_of (lit "<" ++ lit tag) ;; WordB ;; star (none_of ">") ;; Char 62 ;;
   opt (lazy_star Dot ;; chars_of (lit "</" ++ lit tag ++ lit ">")))%re.

Definition remove (r : regex) (text : str) : str :=
  replace fl_i r (Template []) text.

Definition sanitize_text (text : str) : str :=
  let text := remove re_script_block text in
  let text := remove re_handler text in
  let text := remove re_javascript text in
  fold_left (fun text tag => remove (re_tag tag) text) dangerous text.

Definition sanitizeHTML (text : value) : outcome str :=
  match as_string text with
  | Return s => Return (sanitize_text s)
  | Throw e => Throw e
  end.

(* ---------------------------------------------------------------- *)
(** *** convertToHTML *)

(** [<tag style="css">] *)
Definition styled (tag css : string) : str :=
  lit "<" ++ lit tag ++ lit " style=" ++ quoted css ++ lit ">".

Definition dollar1 : str := lit "$1".

(** The fenced code block: three backticks, [([\s\S]*?)], three backticks. *)
Definition re_code_block : regex :=
  (chars "```" ;; Group 1 (lazy_star any) ;; chars "```")%re.
(** The inline code span: a backtick, one or more characters that are not
    one (group 1), a backtick. *)
Definition re_inline_code : regex :=
  (Char 96 ;; Group 1 (plus (none_of "`")) ;; Char 96)%re.
(** [/^### (.+)$/gm], [/^## (.+)$/gm], [/^# (.+)$/gm] *)
Definition re_heading (hashes : string) : regex :=
  (Bol ;; chars_of (lit hashes ++ [SP]) ;; Group 1 (plus Dot) ;; Eol)%re.
(** [/^[\*\-] /] *)
Definition re_bullet_marker : regex := (Bol ;; one_of "*-" ;; Char SP)%re.
(** [/((?:^[\*\-] .+$\n?)+)/gm] *)
Definition re_bullets : regex :=
  Group 1 (plus (re_bullet_marker ;; plus Dot ;; Eol ;; opt (Char LF))%re).
(** [/^\d+\. /] *)
Definition re_number_marker : regex :=
  (Bol ;; plus digit ;; Char 46 ;; Char SP)%re.
(** [/((?:^\d+\. .+$\n?)+)/gm] *)
Definition re_numbers : regex :=
  Group 1 (plus (re_number_marker ;; plus Dot ;; Eol ;; opt (Char LF))%re).
(** Two stars, one or more characters that are not a star (group 1), two
    stars. *)
Definition re_bold : regex :=
  (chars "**" ;; Group 1 (plus (none_of "*")) ;; chars "**")%re.
(** One star, one or more characters that are not a star (group 1), one
    star. *)
Definition re_italic : regex :=
  (Char 42 ;; Group 1 (plus (none_of "*")) ;; Char 42)%re.
(** [/^---+$/gm] *)
Definition re_rule : regex := (Bol ;; chars "--" ;; plus (Char 45) ;; Eol)%re.
(** [/\n\n+/g] *)
Definition re_blank_lines : regex := (Char LF ;; plus (Char LF))%re.

(** The callback of the two list rules: one [li] per line of the match. *)
Definition list_items (marker : regex) (match_ : str) : str :=
  join (map (fun item =>
               let content :=
                 replace_first fl_none marker (Template []) item in
               styled "li" "margin-bottom:8px" ++ content ++ lit "</li>")
            (split_on LF (trim match_))).

Definition render_text (text : str) : str :=
  let text := sanitize_text text in
  let html := text in
  let html :=
    replace fl_none re_code_block
      (Template (styled "blockquote"
         "background:#f5f5f5;padding:12px;border-left:4px solid #ddd;font-family:monospace;white-space:pre-wrap"
         ++ dollar1 ++ lit "</blockquote>")) html in
  let html :=
    replace fl_none re_inline_code
      (Template (styled "code"
         "background:#f0f0f0;padding:2px 6px;border-radius:3px;font-family:monospace"
         ++ dollar1 ++ lit "</code>")) html in
  let html :=
    replace fl_m (re_heading "###")
      (Template (styled "h3" "font-size:20px;margin:20px 0 16px"
                 ++ dollar1 ++ lit "</h3>")) html in
  let html :=
    replace fl_m (re_heading "##")
      (Template (styled "h2" "font-size:24px;margin:24px 0 16px"
                 ++ dollar1 ++ lit "</h2>")) html in
  let html :=
    replace fl_m (re_heading "#")
      (Template (styled "h1" "font-size:28px;margin:28px 0 20px"
                 ++ dollar1 ++ lit "</h1>")) html in
  let html :=
    replace fl_m re_bullets
      (Callback (fun res =>
         styled "ul" "margin:16px 0;padding-left:24px"
         ++ list_items re_bullet_marker (matched res) ++ lit "</ul>")) html in
  let html :=
    replace fl_m re_numbers
      (Callback (fun res =>
         styled "ol" "margin:16px 0;padding-left:24px"
         ++ list_items re_number_marker (matched res) ++ lit "</ol>")) html in
  let html :=
    replace fl_none re_bold
      (Template (lit "<strong>$1</strong>")) html in
  let html :=
    replace fl_none re_italic (Template (lit "<em>$1</em>")) html in
  let html :=
    replace fl_m re_rule
      (Template (styled "hr"
         "border:none;border-top:1px solid #ddd;margin:24px 0")) html in
  let html :=
    replace fl_none re_blank_lines
      (Template (lit "</p>" ++ styled "p" "margin:12px 0")) html in
  let html := replace fl_none (Char LF) (Template (lit "<br>")) html in
  styled "div"
    "font-size:16px;line-height:1.6;font-family:-apple-system,sans-serif"
  ++ styled "p" "margin:12px 0" ++ html ++ lit "</p></div>".

Definition convertToHTML (text : value) : outcome str :=
  match as_string text with
  | Return s => Return (render_text s)
  | Throw e => Throw e
  end.

(* ---------------------------------------------------------------- *)
(** *** convertHTMLToMarkdown *)

(** [<tag[^>]*>([\s\S]*?)<\/tag>], the shape of most rules. *)
Definition re_element (tag : string) : regex :=
  (chars_of (lit "<" ++ lit tag) ;; star (none_of ">") ;; Char 62 ;;
   Group 1 (lazy_star any) ;; chars_of (lit "</" ++ lit tag ++ lit ">"))%re.

(** The comment: its opening, [[\s\S]*?], its closing. *)
Definition re_comment : regex :=
  (chars "<!--" ;; lazy_star any ;; chars "-->")%re.

(** [<blockquote[^>]*font-family:\s*monospace[^>]*>([\s\S]*?)<\/blockquote>] *)
Definition re_code_quote : regex :=
  (chars "<blockquote" ;; star (none_of ">") ;; chars "font-family:" ;;
   star space ;; chars "monospace" ;; star (none_of ">") ;; Char 62 ;;
   Group 1 (lazy_star any) ;; chars "</blockquote>")%re.

(** [/<hr[^>]*>/gi] *)
Definition re_hr : regex := (chars "<hr" ;; star (none_of ">") ;; Char 62)%re.
(** [/<br\s*\/?>/gi] *)
Definition re_br : regex :=
  (chars "<br" ;; star space ;; opt (Char 47) ;; Char 62)%re.
(** The anchor: [<a[^>]*href=], a double-quoted address (group 1), [[^>]*>],
    the text (group 2), the closing tag. *)
Definition re_anchor : regex :=
  (chars "<a" ;; star (none_of ">") ;; chars "href=" ;; Char DQ ;;
   Group 1 (star (Class true [CChar DQ])) ;; Char DQ ;;
   star (none_of ">") ;; Char 62 ;;
   Group 2 (lazy_star any) ;; chars "</a>")%re.
(** [/<[^>]+>/g] *)
Definition re_any_tag : regex := (Char 60 ;; plus (none_of ">") ;; Char 62)%re.
(** [/\n{3,}/g] *)
Definition re_newlines : regex := Quant 3 None true (Char LF).

Definition heading_rule (level : string) (hashes : string) (md : str) : str :=
  replace fl_i (re_element level)
    (Template (lit hashes ++ lit " $1" ++ [LF; LF])) md.

Definition wrap_rule (tag : string) (mark : string) (md : str) : str :=
  replace fl_i (re_element tag) (Template (lit mark ++ dollar1 ++ lit mark)) md.

Definition entity_rule (name : string) (c : cu) (md : str) : str :=
  replace fl_none (chars name) (Template [c]) md.

(** The callback of the ordered-list rule for one item: it increments
    [listCounter] and returns the counter, a dot, a space, the two
    characters [$1] and a newline. *)
Definition number_item (listCounter : nat) (_ : mresult) : nat * str :=
  let listCounter := S listCounter in
  (listCounter, decimal listCounter ++ lit ". $1" ++ [LF]).

Definition extract_text (html : str) : str :=
  let md := html in
  let md := replace fl_none re_comment (Template []) md in
  let md := heading_rule "h1" "#" md in
  let md := heading_rule "h2" "##" md in
  let md := heading_rule "h3" "###" md in
  let md := heading_rule "h4" "####" md in
  let md := heading_rule "h5" "#####" md in
  let md := heading_rule "h6" "######" md in
  let md := wrap_rule "strong" "**" md in
  let md := wrap_rule "b" "**" md in
  let md := wrap_rule "em" "*" md in
  let md := wrap_rule "i" "*" md in
  let md :=
    replace fl_i re_code_quote
      (Template (lit "```" ++ [LF] ++ dollar1 ++ [LF] ++ lit "```" ++ [LF]))
      md in
  let md :=
    replace fl_i (re_element "code") (Template (lit "`$1`")) md in
  let md :=
    replace fl_i (re_element "ul")
      (Callback (fun res =>
         replace fl_i (re_element "li") (Template (lit "- $1" ++ [LF]))
           (capture 1 res) ++ [LF])) md in
  let listCounter := 0%nat in
  let '(listCounter, md) :=
    replace_st fl_i (re_element "ol")
      (fun listCounter res =>
         let listCounter := 0%nat in
         let (listCounter, items) :=
           replace_st fl_i (re_element "li") number_item listCounter
             (capture 1 res) in
         (listCounter, items ++ [LF]))
      listCounter md in
  let md := replace fl_i re_hr (Template ([LF] ++ lit "---" ++ [LF; LF])) md in
  let md := replace fl_i re_br (Template [LF]) md in
  let md := replace fl_i (re_element "p") (Template (dollar1 ++ [LF; LF])) md in
  let md := replace fl_i (re_element "div") (Template (dollar1 ++ [LF])) md in
  let md := replace fl_i re_anchor (Template (lit "[$2]($1)")) md in
  let md := replace fl_none re_any_tag (Template []) md in
  let md := entity_rule "&nbsp;" SP md in
  let md := entity_rule "&amp;" 38 md in
  let md := entity_rule "&lt;" 60 md in
  let md := entity_rule "&gt;" 62 md in
  let md := entity_rule "&quot;" DQ md in
  let md := entity_rule "&#39;" SQ md in
  let md := replace fl_none re_newlines (Template [LF; LF]) md in
  trim md.

Definition convertHTMLToMarkdown (html : value) : outcome str :=
  if negb (truthy html) then Return []
  else match as_string html with
       | Return s => Return (extract_text s)
       | Throw e => Throw e
       end.

End NotesCore.


(* ------------------------------------------------------------------ *)
(** ** Notions used in the statements *)

(** A lower bound on the number of characters a match consumes. *)
Fixpoint minlen (r : regex) : nat :=
  match r with
  | Char _ | Class _ _ | Dot => 1
  | Seq r1 r2 => minlen r1 + minlen r2
  | Alt r1 r2 => Nat.min (minlen r1) (minlen r2)
  | Group _ r' => minlen r'
  | _ => 0
  end.

(** [a] is [b] with some of its characters taken out. *)
Inductive subsequence : str -> str -> Prop :=
| sub_nil : subsequence [] []
| sub_drop c a b : subsequence a b -> subsequence a (c :: b)
| sub_keep c a b : subsequence a b -> subsequence (c :: a) (c :: b).

(** A replacement string without a dollar sign stands for itself. *)
Definition plain (t : str) : bool := forallb (fun c => negb (c =? 36)) t.

Import NotesCore.

(** The patterns [sanitizeHTML] removes, in its order. *)
Definition denylist : list regex :=
  re_script_block :: re_handler :: re_javascript :: map re_tag dangerous.

(** No pattern of the denylist has a match in [h]. *)
Definition clean (h : str) : bool :=
  forallb (fun r => negb (test fl_i r h)) denylist.

(** A fragment with an event handler and a script element. *)
Definition sample_html : str :=
  lit "<p onclick='x()'>Hello <script>alert(1)</script>world</p>".

(** [s] contains [needle] (given in lower case) in some mix of cases. *)
Definition mentions (needle : string) (s : str) : bool :=
  includes (lit needle) (toLowerCase s).

(** The absence of denylisted material as the claim words it: no opening
    of a denylisted tag, no event-handler attribute with a quoted value,
    no [javascript:] token, in any mix of cases. *)
Definition free_of_denylist (out : str) : Prop :=
  (forall tag, In tag dangerous -> mentions ("<" ++ tag) out = false)
  /\ test fl_i re_handler out = false
  /\ mentions "javascript:" out = false.

(** [r] matches exactly the single characters that satisfy [p]. *)
Definition single (fl : flags) (r : regex) (p : cu -> bool) : Prop :=
  forall bef rest,
    exec fl r (start_at bef rest) =
    match rest with
    | c :: rest' => if p c then Some (start_at (c :: bef) rest') else None
    | [] => None
    end.

(** Every double quote of [s] has a backslash right before it. *)
Definition quotes_escaped (s : str) : Prop :=
  forall pre post, s = pre ++ DQ :: post -> exists pre', pre = pre' ++ [BS].

(** Is there a double quote in [s] without a backslash right before it,
    when [bs] tells whether a backslash stands right before [s]? *)
Fixpoint bare_quote (bs : bool) (s : str) : bool :=
  match s with
  | [] => false
  | c :: s' => ((c =? DQ) && negb bs) || bare_quote (c =? BS) s'
  end.

(** Every match of [r] has a character, and only characters that
    satisfy [ok]. *)
Definition matches_only (fl : flags) (r : regex) (ok : cu -> bool) : Prop :=
  forall bef rest z,
    exec fl r (start_at bef rest) = Some z ->
    (1 <= length rest - length (after z))%nat
    /\ forallb ok (firstn (length rest - length (after z)) rest) = true.

(** No double quote in [t]. *)
Definition quote_free (t : str) : bool := forallb (fun c => negb (c =? DQ)) t.

(** Neither a double quote nor a backslash. *)
Definition harmless (c : cu) : bool := negb (c =? DQ) && negb (c =? BS).

Definition is_word_opt (o : option cu) : bool :=
  match o with Some c => is_word c | None => false end.

(** The word [w] (given in lower case) stands at the head of [s], in some
    mix of cases and as a whole word, when [prev] is the character before
    [s]. *)
Definition word_at (w : str) (prev : option cu) (s : str) : bool :=
  negb (is_word_opt prev)
  && starts_with w (toLowerCase s)
  && negb (is_word_opt (hd_error (skipn (length w) s))).

(** The whole word [w] occurs somewhere in [s]. *)
Fixpoint has_word_go (w : str) (prev : option cu) (s : str) : bool :=
  word_at w prev s
  || match s with
     | c :: s' => has_word_go w (Some c) s'
     | [] => false
     end.

Definition has_word (w : string) (s : str) : bool :=
  has_word_go (lit w) None s.

Definition tell : str := lit "tell".

(** The scan of the first keyword rule. *)
Definition neut (bef rest : str) : str :=
  replace_go fl_i re_tell (Template (lit "t_e_l_l")) 0 bef rest.

(** What the claim says of an escaped text. *)
Definition escape_claim (out : str) : Prop :=
  ~ In NUL out /\ ~ In US out
  /\ quotes_escaped out
  /\ ~ In LBRACE out /\ ~ In RBRACE out
  /\ has_word "tell" out = false
  /\ test fl_i re_end_tell out = false.

(** State [y] is state [x] moved on over [pre] in the same input. *)
Definition reaches_by (pre : str) (x y : mstate) : Prop :=
  after x = pre ++ after y /\ before y = rev pre ++ before x.

Definition reaches (x y : mstate) : Prop := exists pre, reaches_by pre x y.

(** A function of the class raises for no input. *)
Definition never_raises (f : value -> outcome str) : Prop :=
  forall v, exists out, f v = Return out.

(** The body of the scenario. *)
Definition scenario_body : str :=
  lit "# Heading" ++ [LF; LF] ++ lit "**Bold** and *italic* text."
  ++ [LF; LF] ++ lit "- Item 1" ++ [LF] ++ lit "- Item 2".

(** A text of 50001 letters. *)
Definition long_text : str := repeat 97 (N.to_nat 50001).

(** [t] begins with a white-space character. *)
Definition space_first (t : str) : bool :=
  match t with c :: _ => is_space c | [] => false end.

(** [t] neither begins nor ends with white space. *)
Definition is_trimmed (t : str) : bool :=
  negb (space_first t) && negb (space_first (rev t)).

(** Every match of [r] goes over a character that the pattern character
    [a] matches. *)
Fixpoint requires (a : cu) (r : regex) : bool :=
  match r with
  | Char b => b =? a
  | Seq r1 r2 => requires a r1 || requires a r2
  | Alt r1 r2 => requires a r1 && requires a r2
  | Quant mn mx _ r' =>
      negb (Nat.eqb mn 0)
      && negb (match mx with Some O => true | _ => false end)
      && requires a r'
  | Group _ r' => requires a r'
  | _ => false
  end.

(** The characters that an escaped text never has: the control characters
    (tab, newline and return among them), the line and paragraph
    separators, the zero-width and direction characters. *)
Definition raw (c : cu) : bool :=
  (c <? 32) || (c =? 127) || in_range 0x2028 0x2029 c
  || in_range 0x200B 0x200F c || in_range 0x202A 0x202E c
  || in_range 0x2060 0x2064 c || in_range 0x206A 0x206F c || (c =? 0xFEFF).

(** The characters that follow a backslash in an escaped text. *)
Definition escapable (c : cu) : bool :=
  (c =? BS) || (c =? DQ) || (c =? 110) || (c =? 116).

(** [s] is made of the pairs backslash-backslash, backslash-quote,
    backslash-n, backslash-t and of single characters that are neither a
    backslash nor a double quote; [esc] tells whether a backslash is
    waiting for its second character. *)
Fixpoint tok (esc : bool) (s : str) : bool :=
  match s with
  | [] => negb esc
  | c :: s' =>
      if esc then escapable c && tok false s'
      else if c =? BS then tok true s'
      else negb (c =? DQ) && tok false s'
  end.

(** The state of [tok] after [pre]. *)
Fixpoint tok_state (esc : bool) (pre : str) : bool :=
  match pre with
  | [] => esc
  | c :: p => tok_state (if esc then false else c =? BS) p
  end.

(** The number of backslashes at the head of [s]. *)
Fixpoint run (s : str) : nat :=
  match s with
  | c :: s' => if c =? BS then S (run s') else O
  | [] => O
  end.

(** Every double quote of [out] has an odd number of backslashes right
    before it: to the interpreter it is an escaped quote. *)
Definition quotes_properly_escaped (out : str) : Prop :=
  forall pre post, out = pre ++ DQ :: post -> Nat.odd (run (rev pre)) = true.

(** The characters that no step of the escaping removes or rewrites. *)
Definition ordinary (c : cu) : bool :=
  negb (raw c) && negb (c =? DQ) && negb (c =? BS)
  && negb (c =? LBRACE) && negb (c =? RBRACE).

(** The first six escapes of the chain, up to the one for tabs. *)
Definition escape_chain_head (text : str) : str :=
  let text := replace fl_none (Char BS) (Template [BS; BS]) text in
  let text := replace fl_none (Char DQ) (Template [BS; DQ]) text in
  let text := replace fl_none (Char CR ;; Char LF) (Template escaped_n) text in
  let text := replace fl_none (Char CR) (Template escaped_n) text in
  let text := replace fl_none (Char LF) (Template escaped_n) text in
  replace fl_none (Class false [CChar TAB]) (Template escaped_t) text.

(* ------------------------------------------------------------------ *)
(** ** More string methods *)

(** The scan of [s.split(sep)] for a separator that is not empty: [cur]
    holds the piece being read (last character first) and [skip] the
    characters of a separator still to pass. *)
Fixpoint split_go (sep : str) (skip : nat) (cur : str) (s : str)
    {struct s} : list str :=
  match s with
  | [] => [rev cur]
  | c :: s' =>
      match skip with
      | S n => split_go sep n cur s'
      | O =>
          if starts_with sep s
          then rev cur :: split_go sep (length sep - 1) [] s'
          else split_go sep 0 (c :: cur) s'
      end
  end.

(** [s.split(sep)] *)
Definition split (sep s : str) : list str :=
  match sep with
  | [] => map (fun c => [c]) s
  | _ => split_go sep 0 [] s
  end.

(** [l.join(sep)] *)
Fixpoint join_with (sep : str) (l : list str) : str :=
  match l with
  | [] => []
  | [p] => p
  | p :: l' => p ++ sep ++ join_with sep l'
  end.

(** [x?.trim() || ''] for an element of a destructured array, which is
    [undefined] when the array is too short. *)
Definition trimmed_or_empty (x : option str) : str :=
  match x with
  | Some f => match trim f with [] => [] | t => t end
  | None => []
  end.

Definition nonempty (s : str) : bool :=
  match s with [] => false | _ => true end.

(* ------------------------------------------------------------------ *)
(** ** NotesCore: reading the replies of the interpreter *)

Module Replies.

(** A note as [list] returns it. *)
Record note := {
  id : str;
  name : str;
  folder : str;
  creationDate : str;
  modificationDate : str
}.

(** The callback of [map] in [list]: one note from one piece of the
    reply. *)
Definition note_of_piece (noteStr : str) : note :=
  let parts := split (lit "|||") noteStr in
  {| id := trimmed_or_empty (nth_error parts 0);
     name := trimmed_or_empty (nth_error parts 1);
     folder := trimmed_or_empty (nth_error parts 2);
     creationDate := trimmed_or_empty (nth_error parts 3);
     modificationDate := trimmed_or_empty (nth_error parts 4) |}.

(** What [list] makes of the reply [result] of the interpreter: nothing
    of an empty or blank reply; otherwise the pieces between [###], each
    cut at [|||], without the notes that have no id or no name. *)
Definition list_result (result : str) : list note :=
  if negb (nonempty result) || negb (nonempty (trim result)) then []
  else filter (fun n => nonempty (id n) && nonempty (name n))
         (map note_of_piece (split (lit "###") result)).

(** A note as [show] returns it. *)
Record shown := {
  shown_id : str;
  shown_name : str;
  shown_body : str
}.

(** What [show] makes of the reply [result]. *)
Definition show_result (result : str) : shown :=
  let parts := split (lit "|||") result in
  {| shown_id := trimmed_or_empty (nth_error parts 0);
     shown_name := trimmed_or_empty (nth_error parts 1);
     shown_body := trimmed_or_empty (nth_error parts 2) |}.

End Replies.

(* ------------------------------------------------------------------ *)
(** ** notes-cli: the arguments of [note create] *)

Module NotesCLI.

(** The loop over [args[3]], [args[4]], ...: an argument that starts
    with [@] sets the folder (without the [@]), any other one is added to
    the words of the body. *)
Definition create_step (st : option str * list str) (arg : str)
    : option str * list str :=
  let (folder, bodyArgs) := st in
  if starts_with (lit "@") arg
  then (Some (skipn 1 arg), bodyArgs)
  else (folder, bodyArgs ++ [arg]).

(** The folder, the title and the body that [main] takes from the
    arguments of [note create]. *)
Definition create_arguments (args : list str)
    : option str * option str * str :=
  let (folder, bodyArgs) := fold_left create_step (skipn 3 args) (None, []) in
  let title := nth_error args 2 in
  let body := join_with [SP] bodyArgs in
  (folder, title, body).

End NotesCLI.

(** The note that the fields of one piece stand for. *)
Definition note_of_fields (fields : list str) : Replies.note :=
  {| Replies.id := trim (nth 0 fields []);
     Replies.name := trim (nth 1 fields []);
     Replies.folder := trim (nth 2 fields []);
     Replies.creationDate := trim (nth 3 fields []);
     Replies.modificationDate := trim (nth 4 fields []) |}.

Definition has_id_and_name (n : Replies.note) : bool :=
  nonempty (Replies.id n) && nonempty (Replies.name n).

(* ------------------------------------------------------------------ *)
(** * Properties of the matcher *)

Section RepeatFacts.
Variable mr : cont -> mstate -> mres.
Variable gs : list nat.
Variable greedy : bool.
Variable k : cont.

(** The body's successes go through its continuation, further on. *)
Hypothesis mr_consumes :
  forall (d : cont) (x z : mstate),
    mr d x = Hit z ->
    exists y, d y = Hit z /\ (length (after y) <= length (after x))%nat.

Lemma repeat_consumes (fuel : nat) :
  forall mn mx x z,
    repeat_matcher mr gs greedy k fuel mn mx x = Hit z ->
    exists y, k y = Hit z /\ (length (after y) <= length (after x))%nat.
Proof.
  induction fuel as [|fuel IHf]; intros mn mx x z H; [discriminate|].
  simpl in H.
  set (d := fun y : mstate =>
              if Nat.eqb mn 0
                 && Nat.eqb (length (after y)) (length (after x))
              then Miss
              else repeat_matcher mr gs greedy k fuel (Nat.pred mn)
                     (option_map Nat.pred mx) y) in H.
  assert (Hbody : mr d (clear_caps gs x) = Hit z ->
                  exists y, k y = Hit z /\
                            (length (after y) <= length (after x))%nat).
  { intro H0. apply mr_consumes in H0. destruct H0 as (y0 & H0 & L0).
    simpl in L0. unfold d in H0.
    destruct (Nat.eqb mn 0
              && Nat.eqb (length (after y0)) (length (after x)));
      [discriminate|].
    apply IHf in H0. destruct H0 as (y & Hy & L).
    exists y. split; [exact Hy | lia]. }
  assert (Hk : k x = Hit z ->
               exists y, k y = Hit z /\
                         (length (after y) <= length (after x))%nat).
  { intro Hx. exists x. split; [exact Hx | lia]. }
  assert (Hrest :
            (if negb (Nat.eqb mn 0) then mr d (clear_caps gs x)
             else if greedy
                  then or_else (mr d (clear_caps gs x)) (fun _ => k x)
                  else or_else (k x) (fun _ => mr d (clear_caps gs x)))
            = Hit z ->
            exists y, k y = Hit z /\
                      (length (after y) <= length (after x))%nat).
  { clear H. intro H. destruct (negb (Nat.eqb mn 0)); [exact (Hbody H)|].
    destruct greedy; unfold or_else in H.
    - destruct (mr d (clear_caps gs x)) eqn:Ea; try discriminate.
      + exact (Hbody H).
      + exact (Hk H).
    - destruct (k x) eqn:Ek; try discriminate.
      + exact (Hk H).
      + exact (Hbody H). }
  destruct mx as [[|mx']|]; [exact (Hk H) | exact (Hrest H) | exact (Hrest H)].
Qed.
(** The body never runs out of iterations when its continuation does
    not. *)
Hypothesis mr_never_exhausted :
  forall (d : cont) (x : mstate),
    (forall y, (length (after y) <= length (after x))%nat ->
               d y <> Exhausted) ->
    mr d x <> Exhausted.

Lemma or_else_not_exhausted a b :
  a <> Exhausted -> b tt <> Exhausted -> or_else a b <> Exhausted.
Proof. destruct a; simpl; congruence. Qed.

Lemma repeat_never_exhausted (fuel : nat) :
  forall mn mx x,
    (mn + length (after x) < fuel)%nat ->
    (forall y, (length (after y) <= length (after x))%nat ->
               k y <> Exhausted) ->
    repeat_matcher mr gs greedy k fuel mn mx x <> Exhausted.
Proof.
  induction fuel as [|fuel IHf]; intros mn mx x Hfuel Hk; [lia|].
  simpl.
  set (d := fun y : mstate =>
              if Nat.eqb mn 0
                 && Nat.eqb (length (after y)) (length (after x))
              then Miss
              else repeat_matcher mr gs greedy k fuel (Nat.pred mn)
                     (option_map Nat.pred mx) y).
  assert (Hx : k x <> Exhausted) by (apply Hk; lia).
  assert (Hbody : mr d (clear_caps gs x) <> Exhausted).
  { apply mr_never_exhausted. intros y Ly. simpl in Ly. unfold d.
    destruct (Nat.eqb mn 0) eqn:Emn; simpl.
    - apply Nat.eqb_eq in Emn. subst mn.
      destruct (Nat.eqb (length (after y)) (length (after x))) eqn:El;
        [discriminate|].
      apply Nat.eqb_neq in El. apply IHf; [simpl; lia|].
      intros y' Ly'. apply Hk. lia.
    - apply Nat.eqb_neq in Emn. apply IHf; [lia|].
      intros y' Ly'. apply Hk. lia. }
  assert (Hrest :
            (if negb (Nat.eqb mn 0) then mr d (clear_caps gs x)
             else if greedy
                  then or_else (mr d (clear_caps gs x)) (fun _ => k x)
                  else or_else (k x) (fun _ => mr d (clear_caps gs x)))
            <> Exhausted).
  { destruct (negb (Nat.eqb mn 0)); [exact Hbody|].
    destruct greedy; apply or_else_not_exhausted; assumption. }
  destruct mx as [[|mx']|]; assumption.
Qed.
End RepeatFacts.

Section MatcherFacts.
Variable fl : flags.

Ltac step_char_case H :=
  unfold step_char in H;
  match type of H with
  | context [after ?x] =>
      let c := fresh "c" in let rest := fresh "rest" in
      let E := fresh "E" in
      destruct (after x) as [|c rest] eqn:E; [discriminate|];
      match type of H with
      | (if ?b then _ else _) = _ => destruct b; [|discriminate]
      end
  end.

(** A successful match went through its continuation, at a state
    at least [minlen r] characters after the start. *)
Lemma m_consumes (r : regex) :
  forall (k : cont) (x z : mstate),
    m fl r k x = Hit z ->
    exists y, k y = Hit z /\
              (length (after y) + minlen r <= length (after x))%nat.
Proof.
  induction r as [ | a | neg items | | r1 IH1 r2 IH2 | r1 IH1 r2 IH2
                 | mn mx greedy r' IH | n r' IH | r' IH | | | ];
    intros k x z H; cbn [m] in H.
  - exists x. split; [exact H | simpl; lia].
  - step_char_case H. eexists; split; [exact H|]. simpl. lia.
  - step_char_case H. eexists; split; [exact H|]. simpl. lia.
  - step_char_case H. eexists; split; [exact H|]. simpl. lia.
  - apply IH1 in H. destruct H as (y1 & H & L1).
    apply IH2 in H. destruct H as (y & H & L2).
    exists y. split; [exact H | simpl; lia].
  - unfold or_else in H. destruct (m fl r1 k x) eqn:E1; try discriminate.
    + rewrite H in E1. apply IH1 in E1. destruct E1 as (y1 & Hy & L).
      exists y1. split; [exact Hy | simpl; lia].
    + apply IH2 in H. destruct H as (y & Hy & L).
      exists y. split; [exact Hy | simpl; lia].
  - apply repeat_consumes in H.
    + destruct H as (y & Hy & L). exists y. split; [exact Hy | simpl; lia].
    + intros d x0 z0 H0. apply IH in H0. destruct H0 as (y & Hy & L).
      exists y. split; [exact Hy | lia].
  - apply IH in H. destruct H as (y & H & L).
    exists (set_cap n (consumed x y) y). split; [exact H | exact L].
  - destruct (m fl r' Hit x); try discriminate.
    exists x. split; [exact H | simpl; lia].
  - destruct (xorb _ _); [|discriminate].
    exists x. split; [exact H | simpl; lia].
  - destruct (at_bol fl x); [|discriminate].
    exists x. split; [exact H | simpl; lia].
  - destruct (at_eol fl x); [|discriminate].
    exists x. split; [exact H | simpl; lia].
Qed.

(** The match found by [exec] ends at least [minlen r] characters after
    its start. *)
Lemma exec_consumes (r : regex) (x z : mstate) :
  exec fl r x = Some z ->
  (length (after z) + minlen r <= length (after x))%nat.
Proof.
  unfold exec. intro H. destruct (m fl r Hit x) eqn:E; try discriminate.
  injection H as ->. apply m_consumes in E. destruct E as (y & Hy & L).
  injection Hy as ->. exact L.
Qed.
(** The iteration bound of a quantifier is never used up: [Exhausted]
    is not a result of the matcher. *)
Lemma m_never_exhausted (r : regex) :
  forall (k : cont) (x : mstate),
    (forall y, (length (after y) <= length (after x))%nat ->
               k y <> Exhausted) ->
    m fl r k x <> Exhausted.
Proof.
  induction r as [ | a | neg items | | r1 IH1 r2 IH2 | r1 IH1 r2 IH2
                 | mn mx greedy r' IH | n r' IH | r' IH | | | ];
    intros k x Hk; cbn [m];
    assert (Hx : k x <> Exhausted) by (apply Hk; lia).
  - exact Hx.
  - unfold step_char. destruct (after x) as [|c rest] eqn:E; [discriminate|].
    destruct (char_matches fl a c); [|discriminate].
    apply Hk. simpl. lia.
  - unfold step_char. destruct (after x) as [|c rest] eqn:E; [discriminate|].
    destruct (class_matches fl neg items c); [|discriminate].
    apply Hk. simpl. lia.
  - unfold step_char. destruct (after x) as [|c rest] eqn:E; [discriminate|].
    destruct (negb (is_line_terminator c)); [|discriminate].
    apply Hk. simpl. lia.
  - apply IH1. intros y Ly. apply IH2. intros y' Ly'. apply Hk. lia.
  - apply or_else_not_exhausted; [apply IH1 | apply IH2]; exact Hk.
  - apply repeat_never_exhausted; [exact IH | lia | exact Hk].
  - apply IH. intros y Ly. apply Hk. exact Ly.
  - assert (H : m fl r' Hit x <> Exhausted)
      by (apply IH; intros; discriminate).
    destruct (m fl r' Hit x); congruence.
  - destruct (xorb _ _); [exact Hx | discriminate].
  - destruct (at_bol fl x); [exact Hx | discriminate].
  - destruct (at_eol fl x); [exact Hx | discriminate].
Qed.

(** So [exec] finds no match exactly when the matcher fails. *)
Lemma exec_none (r : regex) (x : mstate) :
  exec fl r x = None <-> m fl r Hit x = Miss.
Proof.
  unfold exec.
  assert (H : m fl r Hit x <> Exhausted)
    by (apply m_never_exhausted; intros; discriminate).
  destruct (m fl r Hit x); split; congruence.
Qed.
End MatcherFacts.

(* ------------------------------------------------------------------ *)
(** * Positions of the matcher *)

Lemma reaches_refl x : reaches x x.
Proof. exists []. split; reflexivity. Qed.

Lemma reaches_trans x y z : reaches x y -> reaches y z -> reaches x z.
Proof.
  intros (p1 & A1 & B1) (p2 & A2 & B2). exists (p1 ++ p2). split.
  - rewrite A1, A2, app_assoc. reflexivity.
  - rewrite B2, B1, rev_app_distr, app_assoc. reflexivity.
Qed.

Lemma reaches_advance c rest x :
  after x = c :: rest -> reaches x (advance c rest x).
Proof. intro E. exists [c]. split; [exact E | reflexivity]. Qed.

Section RepeatPositions.
Variable mr : cont -> mstate -> mres.
Variable gs : list nat.
Variable greedy : bool.
Variable k : cont.

Hypothesis mr_reaches :
  forall (d : cont) (x z : mstate),
    mr d x = Hit z -> exists y, d y = Hit z /\ reaches x y.

Lemma repeat_reaches (fuel : nat) :
  forall mn mx x z,
    repeat_matcher mr gs greedy k fuel mn mx x = Hit z ->
    exists y, k y = Hit z /\ reaches x y.
Proof.
  induction fuel as [|fuel IHf]; intros mn mx x z H; [discriminate|].
  simpl in H.
  set (d := fun y : mstate =>
              if Nat.eqb mn 0
                 && Nat.eqb (length (after y)) (length (after x))
              then Miss
              else repeat_matcher mr gs greedy k fuel (Nat.pred mn)
                     (option_map Nat.pred mx) y) in H.
  assert (Hbody : mr d (clear_caps gs x) = Hit z ->
                  exists y, k y = Hit z /\ reaches x y).
  { intro H0. apply mr_reaches in H0. destruct H0 as (y0 & H0 & R0).
    unfold d in H0.
    destruct (Nat.eqb mn 0
              && Nat.eqb (length (after y0)) (length (after x)));
      [discriminate|].
    apply IHf in H0. destruct H0 as (y & Hy & R).
    exists y. split; [exact Hy|].
    apply reaches_trans with y0; [|exact R].
    destruct R0 as (p & A & B). exists p. split; assumption. }
  assert (Hk : k x = Hit z -> exists y, k y = Hit z /\ reaches x y).
  { intro Hx. exists x. split; [exact Hx | apply reaches_refl]. }
  assert (Hrest :
            (if negb (Nat.eqb mn 0) then mr d (clear_caps gs x)
             else if greedy
                  then or_else (mr d (clear_caps gs x)) (fun _ => k x)
                  else or_else (k x) (fun _ => mr d (clear_caps gs x)))
            = Hit z ->
            exists y, k y = Hit z /\ reaches x y).
  { clear H. intro H. destruct (negb (Nat.eqb mn 0)); [exact (Hbody H)|].
    destruct greedy; unfold or_else in H.
    - destruct (mr d (clear_caps gs x)) eqn:Ea; try discriminate.
      + exact (Hbody H).
      + exact (Hk H).
    - destruct (k x) eqn:Ek; try discriminate.
      + exact (Hk H).
      + exact (Hbody H). }
  destruct mx as [[|mx']|]; [exact (Hk H) | exact (Hrest H) | exact (Hrest H)].
Qed.
End RepeatPositions.

Section Positions.
Variable fl : flags.

Ltac step_char_case H :=
  unfold step_char in H;
  match type of H with
  | context [after ?x] =>
      let c := fresh "c" in let rest := fresh "rest" in
      let E := fresh "E" in
      destruct (after x) as [|c rest] eqn:E; [discriminate|];
      match type of H with
      | (if ?b then _ else _) = _ => destruct b; [|discriminate]
      end
  end.

(** A successful match went through its continuation at a later
    position of the same input. *)
Lemma m_reaches (r : regex) :
  forall (k : cont) (x z : mstate),
    m fl r k x = Hit z -> exists y, k y = Hit z /\ reaches x y.
Proof.
  induction r as [ | a | neg items | | r1 IH1 r2 IH2 | r1 IH1 r2 IH2
                 | mn mx greedy r' IH | n r' IH | r' IH | | | ];
    intros k x z H; cbn [m] in H.
  - exists x. split; [exact H | apply reaches_refl].
  - step_char_case H. eexists; split; [exact H|].
    apply reaches_advance, E.
  - step_char_case H. eexists; split; [exact H|].
    apply reaches_advance, E.
  - step_char_case H. eexists; split; [exact H|].
    apply reaches_advance, E.
  - apply IH1 in H. destruct H as (y1 & H & R1).
    apply IH2 in H. destruct H as (y & H & R2).
    exists y. split; [exact H | exact (reaches_trans R1 R2)].
  - unfold or_else in H. destruct (m fl r1 k x) eqn:E1; try discriminate.
    + rewrite H in E1. exact (IH1 _ _ _ E1).
    + exact (IH2 _ _ _ H).
  - apply repeat_reaches in H; [exact H | exact IH].
  - apply IH in H. destruct H as (y & H & R).
    exists (set_cap n (consumed x y) y). split; [exact H | exact R].
  - destruct (m fl r' Hit x); try discriminate.
    exists x. split; [exact H | apply reaches_refl].
  - destruct (xorb _ _); [|discriminate].
    exists x. split; [exact H | apply reaches_refl].
  - destruct (at_bol fl x); [|discriminate].
    exists x. split; [exact H | apply reaches_refl].
  - destruct (at_eol fl x); [|discriminate].
    exists x. split; [exact H | apply reaches_refl].
Qed.
End Positions.

(** A quantified single character: the continuation is reached over
    characters that all satisfy the test, at least [mn] of them. *)
Section RepeatChar.
Variable p : cu -> bool.
Variable gs : list nat.
Variable greedy : bool.
Variable k : cont.

Lemma repeat_char_reaches (fuel : nat) :
  forall mn x z,
    repeat_matcher (step_char p) gs greedy k fuel mn None x = Hit z ->
    exists pre y, k y = Hit z /\ reaches_by pre x y
                  /\ forallb p pre = true /\ (mn <= length pre)%nat.
Proof.
  induction fuel as [|fuel IHf]; intros mn x z H; [discriminate|].
  simpl in H.
  set (d := fun y : mstate =>
              if Nat.eqb mn 0
                 && Nat.eqb (length (after y)) (length (after x))
              then Miss
              else repeat_matcher (step_char p) gs greedy k fuel
                     (Nat.pred mn) None y) in H.
  assert (Hbody : step_char p d (clear_caps gs x) = Hit z ->
                  exists pre y, k y = Hit z /\ reaches_by pre x y
                                /\ forallb p pre = true
                                /\ (mn <= length pre)%nat).
  { unfold step_char. cbn [after clear_caps].
    destruct (after x) as [|c rest] eqn:E; [discriminate|].
    destruct (p c) eqn:Ep; [|discriminate].
    unfold d. intro H0.
    destruct (Nat.eqb mn 0 && _); [discriminate|].
    apply IHf in H0. destruct H0 as (pre & y & Hy & (A & B) & Hp & L).
    cbn [after before advance clear_caps] in A, B.
    exists (c :: pre), y. split; [exact Hy|]. split; [split|split].
    - rewrite E, A. reflexivity.
    - rewrite B. cbn [rev]. rewrite <- app_assoc. reflexivity.
    - cbn [forallb]. rewrite Ep, Hp. reflexivity.
    - cbn [length]. lia. }
  assert (Hk : Nat.eqb mn 0 = true -> k x = Hit z ->
               exists pre y, k y = Hit z /\ reaches_by pre x y
                             /\ forallb p pre = true
                             /\ (mn <= length pre)%nat).
  { intros Hmn Hx. apply Nat.eqb_eq in Hmn. exists [], x.
    split; [exact Hx|]. split; [split; reflexivity|].
    split; [reflexivity | cbn [length]; lia]. }
  destruct (Nat.eqb mn 0) eqn:Emn; cbn [negb] in H; [|exact (Hbody H)].
  destruct greedy; unfold or_else in H.
  - destruct (step_char p d (clear_caps gs x)) eqn:Ea; try discriminate.
    + exact (Hbody H).
    + exact (Hk eq_refl H).
  - destruct (k x) eqn:Ek; try discriminate.
    + exact (Hk eq_refl H).
    + exact (Hbody H).
Qed.
End RepeatChar.
(* ------------------------------------------------------------------ *)
(** * Properties of replace *)

Lemma subsequence_refl s : subsequence s s.
Proof. induction s; constructor; assumption. Qed.

Lemma subsequence_nil s : subsequence [] s.
Proof. induction s; constructor; assumption. Qed.

Lemma subsequence_trans a b c :
  subsequence a b -> subsequence b c -> subsequence a c.
Proof.
  intros Hab Hbc. revert a Hab.
  induction Hbc as [|x b c Hbc IH|x b c Hbc IH]; intros a Hab.
  - exact Hab.
  - constructor. apply IH, Hab.
  - inversion Hab; subst.
    + constructor. apply IH. assumption.
    + apply sub_keep. apply IH. assumption.
Qed.

Lemma subsequence_length a b :
  subsequence a b -> (length a <= length b)%nat.
Proof. induction 1; simpl; lia. Qed.

(** A subsequence of the same length is the string itself. *)
Lemma subsequence_same_length a b :
  subsequence a b -> length a = length b -> a = b.
Proof.
  induction 1 as [|c a b H IH|c a b H IH]; simpl; intro L.
  - reflexivity.
  - apply subsequence_length in H. lia.
  - f_equal. apply IH. lia.
Qed.

Lemma subsequence_Forall (P : cu -> Prop) a b :
  subsequence a b -> Forall P b -> Forall P a.
Proof.
  induction 1; intro HF; [constructor | |];
    inversion HF; subst; [|constructor]; auto.
Qed.

Lemma expand_plain ng res t : plain t = true -> expand ng res t = t.
Proof.
  induction t as [|c t IH]; simpl; intro H; [reflexivity|].
  apply andb_prop in H. destruct H as [Hc Ht].
  rewrite Hc. f_equal. apply IH, Ht.
Qed.

(** Case analysis on the length of the match a scan has found. *)
Ltac case_match_length :=
  match goal with
  | |- context [match (?a - ?b)%nat with O => _ | S _ => _ end] =>
      let E := fresh "En" in destruct (a - b)%nat eqn:E
  end.

Section ReplaceFacts.
Variable fl : flags.
Variable r : regex.

(** Without a match anywhere the text is unchanged. *)
Lemma replace_go_no_match rep bef rest :
  test_go fl r bef rest = false -> replace_go fl r rep 0 bef rest = rest.
Proof.
  revert bef. induction rest as [|c rest IH]; intros bef H; cbn [replace_go test_go] in *.
  - destruct (exec fl r (start_at bef [])); [discriminate | reflexivity].
  - destruct (exec fl r (start_at bef (c :: rest))); [discriminate|].
    f_equal. apply IH, H.
Qed.

Lemma replace_no_match rep s :
  test fl r s = false -> replace fl r rep s = s.
Proof. apply replace_go_no_match. Qed.

(** What a replace puts out is made of characters of the input and of
    characters of the replacements. *)
Lemma replace_go_Forall (P : cu -> Prop) rep :
  (forall res, Forall P (substitute r rep res)) ->
  forall rest skip bef,
    Forall P rest -> Forall P (replace_go fl r rep skip bef rest).
Proof.
  intros Hrep. induction rest as [|c rest IH]; intros skip bef HF.
  - destruct skip; cbn [replace_go]; [|constructor].
    destruct (exec fl r (start_at bef [])); [|constructor].
    rewrite app_nil_r. apply Hrep.
  - inversion HF as [|? ? Hc Hr]; subst.
    destruct skip; cbn [replace_go]; [|apply IH, Hr].
    destruct (exec fl r (start_at bef (c :: rest))) as [z|].
    + apply Forall_app. split; [apply Hrep|].
      case_match_length; [constructor; [exact Hc|] |]; apply IH, Hr.
    + constructor; [exact Hc | apply IH, Hr].
Qed.

Lemma replace_Forall (P : cu -> Prop) t s :
  plain t = true -> Forall P t -> Forall P s ->
  Forall P (replace fl r (Template t) s).
Proof.
  intros Hp Ht Hs. apply replace_go_Forall; [|exact Hs].
  intro res. simpl. rewrite expand_plain by exact Hp. exact Ht.
Qed.

(** Removing the matches leaves a subsequence of the input. *)
Lemma remove_go_subsequence :
  forall rest skip bef,
    subsequence (replace_go fl r (Template []) skip bef rest) rest.
Proof.
  induction rest as [|c rest IH]; intros skip bef.
  - destruct skip; cbn [replace_go]; [|constructor].
    destruct (exec fl r (start_at bef [])); constructor.
  - destruct skip; cbn [replace_go]; [|constructor; apply IH].
    destruct (exec fl r (start_at bef (c :: rest))) as [z|].
    + case_match_length; constructor; apply IH.
    + constructor; apply IH.
Qed.

Lemma remove_subsequence s :
  subsequence (replace fl r (Template []) s) s.
Proof. apply remove_go_subsequence. Qed.

(** When every match of [r] has a character, removing the matches of a
    text that has one makes it shorter. *)
Lemma remove_go_shrinks :
  (1 <= minlen r)%nat ->
  forall rest bef,
    test_go fl r bef rest = true ->
    (length (replace_go fl r (Template []) 0 bef rest) < length rest)%nat.
Proof.
  intros Hmin. induction rest as [|c rest IH]; intros bef H; cbn [replace_go test_go] in *.
  - destruct (exec fl r (start_at bef [])) as [z|] eqn:E; [|discriminate].
    apply exec_consumes in E. simpl in E. lia.
  - destruct (exec fl r (start_at bef (c :: rest))) as [z|] eqn:E.
    + apply exec_consumes in E. cbn [start_at after length] in E.
      cbn [substitute expand app].
      case_match_length; cbn [length] in *; [lia|].
      pose proof (subsequence_length
                    (remove_go_subsequence rest n (c :: bef))). lia.
    + apply IH in H. cbn [length]. lia.
Qed.

Lemma remove_fixed_no_match s :
  (1 <= minlen r)%nat ->
  replace fl r (Template []) s = s -> test fl r s = false.
Proof.
  intros Hmin Hfix. destruct (test fl r s) eqn:E; [|reflexivity].
  apply (remove_go_shrinks Hmin) in E. unfold replace in Hfix.
  rewrite Hfix in E. lia.
Qed.
End ReplaceFacts.
(* ------------------------------------------------------------------ *)
(** * sanitizeHTML *)

Lemma sanitize_text_fold h :
  sanitize_text h = fold_left (fun text r => remove r text) denylist h.
Proof. reflexivity. Qed.

Lemma removes_subsequence (l : list regex) :
  forall h, subsequence (fold_left (fun text r => remove r text) l h) h.
Proof.
  induction l as [|r l IH]; intro h; simpl.
  - apply subsequence_refl.
  - eapply subsequence_trans; [apply IH|]. apply remove_subsequence.
Qed.

Lemma removes_clean (l : list regex) :
  forall h, forallb (fun r => negb (test fl_i r h)) l = true ->
            fold_left (fun text r => remove r text) l h = h.
Proof.
  induction l as [|r l IH]; intros h H; simpl in *; [reflexivity|].
  apply andb_prop in H. destruct H as [Hr Hl].
  apply negb_true_iff in Hr. unfold remove at 2.
  rewrite replace_no_match by exact Hr. apply IH, Hl.
Qed.

Lemma removes_fixed (l : list regex) :
  forallb (fun r => Nat.leb 1 (minlen r)) l = true ->
  forall h, fold_left (fun text r => remove r text) l h = h ->
            forallb (fun r => negb (test fl_i r h)) l = true.
Proof.
  induction l as [|r l IH]; intros Hmin h H; cbn [forallb fold_left] in *;
    [reflexivity|].
  apply andb_prop in Hmin. destruct Hmin as [Hr Hl].
  apply Nat.leb_le in Hr.
  assert (Hsame : remove r h = h).
  { apply subsequence_same_length; [apply remove_subsequence|].
    pose proof (subsequence_length (removes_subsequence l (remove r h))) as L1.
    pose proof (subsequence_length (remove_subsequence fl_i r h)) as L2.
    rewrite H in L1. unfold remove in *. lia. }
  rewrite Hsame in H. apply andb_true_intro. split.
  - apply negb_true_iff. apply remove_fixed_no_match; assumption.
  - apply IH; assumption.
Qed.

(** C10.  Sanitising only deletes: on every string the result is the
    input with some characters taken out, so nothing is inserted and the
    result is no longer than the input. *)
Theorem sanitize_only_deletes (h : str) :
  exists out, sanitizeHTML (VString h) = Return out
              /\ subsequence out h
              /\ (length out <= length h)%nat.
Proof.
  exists (sanitize_text h). split; [reflexivity|].
  assert (H : subsequence (sanitize_text h) h)
    by (rewrite sanitize_text_fold; apply removes_subsequence).
  split; [exact H | apply subsequence_length, H].
Qed.

(** C1.  [sanitizeHTML] lets a script tag through.  Each pattern is
    removed in one pass over the text and nothing is scanned again, so
    the text left around a removed tag can be a denylisted tag itself:
    here the result includes [<script], which the class is written to
    take out. *)
Theorem sanitize_leaves_script_tag :
  sanitizeHTML (VString (lit "<scr<script>ipt>")) = Return (lit "<script>")
  /\ includes (lit "<script") (lit "<script>") = true
  /\ ~ free_of_denylist (lit "<script>").
Proof.
  split; [vm_compute; reflexivity|]. split; [vm_compute; reflexivity|].
  intros (Htags & _ & _).
  specialize (Htags "script"%string (or_introl eq_refl)).
  vm_compute in Htags. discriminate.
Qed.

(** C3.  Sanitising is not idempotent, for the same reason: the tag that
    the first sanitising puts together is removed by the second one. *)
Theorem sanitize_not_idempotent :
  sanitizeHTML (VString (lit "<scr<script>ipt>")) = Return (lit "<script>")
  /\ sanitizeHTML (VString (lit "<script>")) = Return []
  /\ sanitize_text (sanitize_text (lit "<scr<script>ipt>"))
     <> sanitize_text (lit "<scr<script>ipt>").
Proof.
  split; [vm_compute; reflexivity|]. split; [vm_compute; reflexivity|].
  vm_compute. discriminate.
Qed.
(* ------------------------------------------------------------------ *)
(** * escapeForAppleScript: characters *)

Lemma single_char fl a : single fl (Char a) (char_matches fl a).
Proof.
  intros bef [|c rest]; [reflexivity|].
  unfold exec. cbn [m]. unfold step_char. cbn [after start_at].
  destruct (char_matches fl a c); reflexivity.
Qed.

Lemma single_class fl neg items :
  single fl (Class neg items) (class_matches fl neg items).
Proof.
  intros bef [|c rest]; [reflexivity|].
  unfold exec. cbn [m]. unfold step_char. cbn [after start_at].
  destruct (class_matches fl neg items c); reflexivity.
Qed.

Section SingleFacts.
Variable fl : flags.
Variable r : regex.
Variable p : cu -> bool.
Hypothesis r_single : single fl r p.

(** Replacing single characters is a map over the characters. *)
Lemma replace_go_single t s :
  plain t = true ->
  forall bef,
    replace_go fl r (Template t) 0 bef s
    = flat_map (fun c => if p c then t else [c]) s.
Proof.
  intro Hp. induction s as [|c s IH]; intro bef; cbn [replace_go flat_map].
  - rewrite r_single. reflexivity.
  - rewrite r_single. destruct (p c).
    + cbn [after start_at substitute]. rewrite expand_plain by exact Hp.
      replace (length (c :: s) - length s)%nat with 1%nat
        by (cbn [length]; lia).
      rewrite IH. reflexivity.
    + rewrite IH. reflexivity.
Qed.

Lemma replace_single t s :
  plain t = true ->
  replace fl r (Template t) s = flat_map (fun c => if p c then t else [c]) s.
Proof. intro Hp. apply replace_go_single, Hp. Qed.

Lemma test_single_none s :
  Forall (fun c => p c = false) s -> test fl r s = false.
Proof.
  unfold test. generalize (@nil cu) as bef.
  induction s as [|c s IH]; intros bef H; cbn [test_go]; rewrite r_single.
  - reflexivity.
  - inversion H as [|? ? Hc Hs]; subst. rewrite Hc. apply IH, Hs.
Qed.

(** Removing them leaves none. *)
Lemma remove_single_none s :
  Forall (fun c => p c = false) (replace fl r (Template []) s).
Proof.
  rewrite replace_single by reflexivity.
  induction s as [|c s IH]; cbn [flat_map]; [constructor|].
  destruct (p c) eqn:E; [exact IH | constructor; assumption].
Qed.
End SingleFacts.

Lemma Forall_firstn (P : cu -> Prop) n s : Forall P s -> Forall P (firstn n s).
Proof.
  revert n. induction s as [|c s IH]; intros [|n] H; simpl; try constructor;
    inversion H; subst; auto.
Qed.

(** A property of single characters that holds of the replacement strings
    of the escapes goes through them, and through the truncation. *)
Section Survives.
Variable P : cu -> Prop.
Hypothesis P_escapes : Forall P [BS; DQ; 110; 116; SP].
Hypothesis P_marker : Forall P marker.

Lemma P_among (t : str) :
  (forall c, In c t -> In c [BS; DQ; 110; 116; SP]) -> Forall P t.
Proof.
  intro H. apply Forall_forall. intros c Hc.
  exact (proj1 (Forall_forall P _) P_escapes c (H c Hc)).
Qed.

Ltac among := apply P_among; simpl; intuition.

Lemma escape_chain_survives s : Forall P s -> Forall P (escape_chain s).
Proof.
  intro H. unfold escape_chain.
  repeat (apply replace_Forall; [reflexivity | among | ]).
  exact H.
Qed.

Lemma strip_survives s : Forall P s -> Forall P (strip s).
Proof.
  intro H. unfold strip.
  repeat (apply replace_Forall; [reflexivity | constructor | ]).
  exact H.
Qed.

Lemma truncate_survives s : Forall P s -> Forall P (truncate s).
Proof.
  intro H. unfold truncate. destruct (Nat.ltb maxLength (length s)); [|exact H].
  apply Forall_app. split; [apply Forall_firstn, H | exact P_marker].
Qed.
End Survives.

(** No control character outside tab, newline and return is left. *)
Lemma escape_text_no_control s :
  Forall (fun c => class_matches fl_none false
                     [CRange 0 8; CChar 11; CChar 12; CRange 14 31; CChar 127]
                     c = false) (escape_text s).
Proof.
  unfold escape_text, escaped.
  apply truncate_survives; [vm_compute; repeat constructor|].
  apply escape_chain_survives; [vm_compute; repeat constructor|].
  unfold strip.
  do 2 (apply replace_Forall; [reflexivity | constructor | ]).
  apply remove_single_none. apply single_class.
Qed.

Lemma escape_text_no_braces s :
  Forall (fun c => c <> LBRACE /\ c <> RBRACE) (escape_text s).
Proof.
  unfold escape_text.
  apply truncate_survives;
    [vm_compute;
     repeat (apply Forall_cons; [split; intro; discriminate|]);
     apply Forall_nil|].
  unfold escaped, escape_chain.
  set (t := replace fl_none (Class false [CChar FF; CChar VT]) _ _).
  clearbody t.
  assert (H1 : Forall (fun c => c <> RBRACE)
                 (replace fl_none (Char RBRACE) (Template []) t)).
  { eapply Forall_impl; [|apply remove_single_none, single_char].
    intros c Hc ->. discriminate. }
  assert (H2 : Forall (fun c => c <> LBRACE)
                 (replace fl_none (Char LBRACE) (Template [])
                    (replace fl_none (Char RBRACE) (Template []) t))).
  { eapply Forall_impl; [|apply remove_single_none, single_char].
    intros c Hc ->. discriminate. }
  apply (@replace_Forall fl_none (Char LBRACE) (fun c => c <> RBRACE)
           [] _ eq_refl (Forall_nil _)) in H1.
  rewrite Forall_forall in *. intros c Hc. split; [apply H2 | apply H1]; exact Hc.
Qed.
(* ------------------------------------------------------------------ *)
(** * escapeForAppleScript: double quotes *)

Lemma bare_quote_app bs t x :
  quote_free t = true ->
  exists b, bare_quote bs (t ++ x) = bare_quote b x.
Proof.
  revert bs. induction t as [|c t IH]; intros bs H.
  - exists bs. reflexivity.
  - cbn [quote_free forallb] in H. apply andb_prop in H.
    destruct H as [Hq Ht]. apply negb_true_iff in Hq.
    destruct (IH (c =? BS) Ht) as [b Hb]. exists b.
    cbn [app bare_quote]. rewrite Hq, Hb. reflexivity.
Qed.

Lemma bare_quote_false_weaken bs s :
  bare_quote false s = false -> bare_quote bs s = false.
Proof.
  destruct s as [|c s]; [reflexivity|]. cbn [bare_quote].
  intro H. apply orb_false_iff in H. destruct H as [H1 H2].
  rewrite H2. destruct (c =? DQ); [discriminate|]. reflexivity.
Qed.

Section KeepsQuotes.
Variable fl : flags.
Variable r : regex.
Variable t : str.
Hypothesis r_harmless : matches_only fl r harmless.
Hypothesis t_plain : plain t = true.
Hypothesis t_quote_free : quote_free t = true.

(** Replacing harmless characters by harmless ones leaves every double
    quote behind its backslash. *)
Lemma replace_go_keeps_quotes :
  forall rest skip bef bs bs',
    bare_quote bs rest = false ->
    forallb harmless (firstn skip rest) = true ->
    (skip = 0%nat -> bs = true -> bs' = true) ->
    bare_quote bs' (replace_go fl r (Template t) skip bef rest) = false.
Proof.
  induction rest as [|c rest IH]; intros skip bef bs bs' Hin Hskip Hbs.
  - destruct skip; cbn [replace_go]; [|reflexivity].
    destruct (exec fl r (start_at bef [])) as [z|] eqn:E; [|reflexivity].
    apply r_harmless in E. cbn [length] in E. lia.
  - cbn [bare_quote] in Hin. apply orb_false_iff in Hin.
    destruct Hin as [Hc Hrest].
    assert (Hskipped : forall n bs1,
               forallb harmless (firstn (S n) (c :: rest)) = true ->
               bare_quote bs1
                 (replace_go fl r (Template t) n (c :: bef) rest) = false).
    { intros n bs1 Hn. cbn [firstn forallb] in Hn.
      apply andb_prop in Hn. destruct Hn as [Hok Hn].
      unfold harmless in Hok. apply andb_prop in Hok.
      destruct Hok as [_ Hb]. apply negb_true_iff in Hb.
      rewrite Hb in Hrest.
      apply (IH n (c :: bef) false bs1 Hrest Hn). intros _ ?. discriminate. }
    assert (Hcopied : (bs = true -> bs' = true) ->
               bare_quote bs'
                 (c :: replace_go fl r (Template t) 0 (c :: bef) rest)
               = false).
    { intro Hb. cbn [bare_quote]. apply orb_false_iff. split.
      - destruct (c =? DQ); [|reflexivity]. cbn [andb] in *.
        destruct bs; [|discriminate Hc]. rewrite Hb; reflexivity.
      - apply (IH 0%nat (c :: bef) (c =? BS) (c =? BS) Hrest eq_refl).
        intros _ H. exact H. }
    destruct skip; cbn [replace_go]; [|apply Hskipped, Hskip].
    destruct (exec fl r (start_at bef (c :: rest))) as [z|] eqn:E;
      [|exact (Hcopied (Hbs eq_refl))].
    apply r_harmless in E. destruct E as [En Eok].
    cbn [substitute]. rewrite expand_plain by exact t_plain.
    destruct (@bare_quote_app bs' t
                (match (length (c :: rest) - length (after z))%nat with
                 | O => c :: replace_go fl r (Template t) 0 (c :: bef) rest
                 | S n => replace_go fl r (Template t) n (c :: bef) rest
                 end) t_quote_free) as [b ->].
    case_match_length; [lia|].
    apply Hskipped. exact Eok.
Qed.

Lemma replace_keeps_quotes s :
  bare_quote false s = false ->
  bare_quote false (replace fl r (Template t) s) = false.
Proof.
  intro H. unfold replace.
  eapply replace_go_keeps_quotes;
    [exact H | reflexivity | intros _ ?; discriminate].
Qed.
End KeepsQuotes.

Lemma single_matches_only fl r p ok :
  single fl r p -> (forall c, p c = true -> ok c = true) ->
  matches_only fl r ok.
Proof.
  intros Hs Hok bef rest z E. rewrite Hs in E.
  destruct rest as [|c rest]; [discriminate|].
  destruct (p c) eqn:Ep; [|discriminate]. injection E as <-.
  cbn [after start_at].
  replace (length (c :: rest) - length rest)%nat with 1%nat
    by (cbn [length]; lia).
  split; [lia|]. cbn [firstn forallb]. rewrite (Hok c Ep). reflexivity.
Qed.

Lemma crlf_matches_only :
  matches_only fl_none (Char CR ;; Char LF) harmless.
Proof.
  intros bef rest z E.
  destruct rest as [|c1 [|c2 rest]]; try discriminate E.
  - unfold exec in E. cbn [m] in E. unfold step_char in E.
    cbn [after start_at] in E.
    destruct (char_matches fl_none CR c1); discriminate E.
  - unfold exec in E. cbn [m] in E. unfold step_char in E.
    cbn [after start_at advance] in E.
    destruct (char_matches fl_none CR c1) eqn:E1; [|discriminate E].
    destruct (char_matches fl_none LF c2) eqn:E2; [|discriminate E].
    injection E as <-. cbn [after advance].
    replace (length (c1 :: c2 :: rest) - length rest)%nat with 2%nat
      by (cbn [length]; lia).
    apply N.eqb_eq in E1, E2. subst c1 c2. split; [lia | reflexivity].
Qed.

(** After the double quotes are escaped each has its backslash. *)
Lemma quotes_step_map bs s :
  bare_quote bs
    (flat_map (fun c => if char_matches fl_none DQ c then [BS; DQ] else [c]) s)
  = false.
Proof.
  revert bs. induction s as [|c s IH]; intro bs; cbn [flat_map];
    [reflexivity|].
  unfold char_matches. cbn [ignoreCase fl_none].
  destruct (DQ =? c) eqn:E; cbn [app bare_quote]; rewrite IH.
  - reflexivity.
  - rewrite N.eqb_sym, E. reflexivity.
Qed.

Lemma quotes_step s :
  bare_quote false
    (replace fl_none (Char DQ) (Template [BS; DQ]) s) = false.
Proof.
  rewrite (replace_single (single_char fl_none DQ)) by reflexivity.
  apply quotes_step_map.
Qed.

Lemma bare_quote_firstn n s bs :
  bare_quote bs s = false -> bare_quote bs (firstn n s) = false.
Proof.
  revert n bs. induction s as [|c s IH]; intros [|n] bs H; try reflexivity.
  cbn [firstn bare_quote] in *. apply orb_false_iff in H.
  destruct H as [H1 H2]. rewrite H1, (IH _ _ H2). reflexivity.
Qed.

Lemma bare_quote_app_r bs s t :
  bare_quote bs s = false -> quote_free t = true ->
  bare_quote bs (s ++ t) = false.
Proof.
  revert bs. induction s as [|c s IH]; intros bs H Ht.
  - cbn [app]. rewrite <- (app_nil_r t).
    destruct (@bare_quote_app bs t [] Ht) as [b ->]. reflexivity.
  - cbn [app bare_quote] in *. apply orb_false_iff in H.
    destruct H as [H1 H2]. rewrite H1, (IH _ H2 Ht). reflexivity.
Qed.

Lemma bare_quote_before bs pre post :
  bare_quote bs (pre ++ DQ :: post) = false ->
  (pre = [] /\ bs = true) \/ exists pre', pre = pre' ++ [BS].
Proof.
  revert bs. induction pre as [|c pre IH]; intros bs H.
  - left. split; [reflexivity|]. cbn [app bare_quote] in H.
    destruct bs; [reflexivity | discriminate].
  - right. cbn [app bare_quote] in H. apply orb_false_iff in H.
    destruct H as [_ H]. apply IH in H. destruct H as [[-> Hc]|[pre' ->]].
    + apply N.eqb_eq in Hc. subst c. exists []. reflexivity.
    + exists (c :: pre'). reflexivity.
Qed.

Lemma bare_quote_sound s : bare_quote false s = false -> quotes_escaped s.
Proof.
  intros H pre post ->. apply bare_quote_before in H.
  destruct H as [[_ H]|H]; [discriminate | exact H].
Qed.

(** Every double quote of the result has a backslash right before it. *)
Lemma escape_text_quotes s : quotes_escaped (escape_text s).
Proof.
  apply bare_quote_sound. unfold escape_text, truncate.
  assert (H : bare_quote false (escaped s) = false).
  { unfold escaped, escape_chain.
    repeat (apply replace_keeps_quotes;
            [ first [ apply crlf_matches_only
                    | eapply single_matches_only;
                      [ first [apply single_char | apply single_class] | ] ]
            | reflexivity | reflexivity | ]).
    all: try apply quotes_step.
    all: intros c Hc; unfold harmless.
    all: unfold char_matches, class_matches in Hc;
      cbn [ignoreCase fl_none existsb item_matches xorb] in Hc.
    all: repeat match type of Hc with
                | (_ || _) = true => apply orb_prop in Hc; destruct Hc as [Hc|Hc]
                end.
    all: try discriminate Hc.
    all: apply N.eqb_eq in Hc; subst c; reflexivity. }
  destruct (Nat.ltb maxLength (length (escaped s))); [|exact H].
  apply bare_quote_app_r; [|reflexivity].
  unfold substring0. apply bare_quote_firstn, H.
Qed.
(* ------------------------------------------------------------------ *)
(** * escapeForAppleScript: the keywords *)

Lemma in_range_spec lo hi c : in_range lo hi c = true <-> lo <= c <= hi.
Proof.
  unfold in_range. rewrite andb_true_iff, !N.leb_le. reflexivity.
Qed.

(** With the [i] flag a lower-case letter of a pattern matches the
    characters whose lower-case form it is. *)
Lemma char_matches_lower a c :
  is_lower a = true -> char_matches fl_i a c = (a =? lower1 c).
Proof.
  intro Ha. unfold char_matches, canonicalize, lower1. cbn [ignoreCase fl_i].
  rewrite Ha. unfold is_lower, is_upper in *.
  apply in_range_spec in Ha.
  destruct (in_range 97 122 c) eqn:Ec; destruct (in_range 65 90 c) eqn:Eu;
    try apply in_range_spec in Ec; try apply in_range_spec in Eu;
    try (assert (Ec' : ~ (97 <= c <= 122))
           by (rewrite <- in_range_spec; congruence); clear Ec);
    try (assert (Eu' : ~ (65 <= c <= 90))
           by (rewrite <- in_range_spec; congruence); clear Eu);
    destruct (N.eqb_spec (a - 32) (c - 32)); destruct (N.eqb_spec a (c + 32));
    destruct (N.eqb_spec (a - 32) c); destruct (N.eqb_spec a c);
    try reflexivity; lia.
Qed.

Lemma lower1_word a c : is_lower a = true -> a = lower1 c -> is_word c = true.
Proof.
  unfold is_word, lower1, is_lower, is_upper. intros Ha ->.
  destruct (in_range 65 90 c) eqn:Eu; [reflexivity|].
  rewrite Ha. reflexivity.
Qed.

Lemma is_space_not_word c : is_space c = true -> is_word c = false.
Proof.
  unfold is_space, is_line_terminator, is_word, is_upper, is_lower, is_digit.
  intro H.
  destruct (in_range 65 90 c) eqn:E1; destruct (in_range 97 122 c) eqn:E2;
    destruct (in_range 48 57 c) eqn:E3; destruct (N.eqb_spec c 95);
    try reflexivity; exfalso;
    try apply in_range_spec in E1; try apply in_range_spec in E2;
    try apply in_range_spec in E3;
    repeat match type of H with
           | (_ || _) = true => apply orb_prop in H; destruct H as [H|H]
           end;
    try apply in_range_spec in H; try apply N.eqb_eq in H;
    unfold TAB, VT, FF, SP, LF, CR in *; lia.
Qed.
Lemma m_tell_tail (k : cont) (y : mstate) :
  m fl_i ((Char 116 ;; Char 101 ;; Char 108 ;; Char 108) ;; WordB)%re k y =
  match after y with
  | c1 :: c2 :: c3 :: c4 :: rest4 =>
      if (116 =? lower1 c1) && (101 =? lower1 c2) && (108 =? lower1 c3)
         && (108 =? lower1 c4) && negb (is_word_opt (hd_error rest4))
      then k {| before := c4 :: c3 :: c2 :: c1 :: before y;
                after := rest4; caps := caps y |}
      else Miss
  | _ => Miss
  end.
Proof.
  cbn [m]. unfold step_char.
  destruct (after y) as [|c1 rest1]; [reflexivity|].
  rewrite (@char_matches_lower 116 c1 eq_refl).
  destruct (116 =? lower1 c1) eqn:E1;
    [|destruct rest1 as [|? [|? [|? ?]]]; reflexivity].
  cbn [after advance]. destruct rest1 as [|c2 rest2]; [reflexivity|].
  rewrite (@char_matches_lower 101 c2 eq_refl).
  destruct (101 =? lower1 c2) eqn:E2;
    [|destruct rest2 as [|? [|? ?]]; reflexivity].
  cbn [after advance]. destruct rest2 as [|c3 rest3]; [reflexivity|].
  rewrite (@char_matches_lower 108 c3 eq_refl).
  destruct (108 =? lower1 c3) eqn:E3;
    [|destruct rest3 as [|? ?]; reflexivity].
  cbn [after advance]. destruct rest3 as [|c4 rest4]; [reflexivity|].
  rewrite (@char_matches_lower 108 c4 eq_refl).
  destruct (108 =? lower1 c4) eqn:E4; [|reflexivity].
  cbn [after advance before caps andb].
  unfold word_before, word_after, advance. cbn [before after caps].
  rewrite (@lower1_word 108 c4 eq_refl) by (apply N.eqb_eq, E4).
  destruct rest4 as [|c5 rest5]; cbn [hd_error is_word_opt xorb negb];
    [reflexivity|].
  destruct (is_word c5); reflexivity.
Qed.

Lemma word_at_tell prev c1 c2 c3 c4 rest4 :
  word_at tell prev (c1 :: c2 :: c3 :: c4 :: rest4)
  = negb (is_word_opt prev)
    && ((116 =? lower1 c1) && (101 =? lower1 c2) && (108 =? lower1 c3)
        && (108 =? lower1 c4) && negb (is_word_opt (hd_error rest4))).
Proof.
  unfold word_at, tell. cbn [lit list_ascii_of_string map length skipn
                             toLowerCase starts_with].
  change (N_of_ascii "t") with 116. change (N_of_ascii "e") with 101.
  change (N_of_ascii "l") with 108.
  destruct (116 =? lower1 c1), (101 =? lower1 c2), (108 =? lower1 c3),
    (108 =? lower1 c4), (negb (is_word_opt prev)); reflexivity.
Qed.

Lemma word_at_tell_short prev s :
  (length s < 4)%nat -> word_at tell prev s = false.
Proof.
  intro L. unfold word_at, tell.
  unfold toLowerCase. cbn [lit list_ascii_of_string map length skipn].
  destruct s as [|c1 [|c2 [|c3 [|c4 s]]]]; cbn [length] in L; try lia;
    cbn [map starts_with]; rewrite ?andb_false_r; cbn [andb];
    rewrite ?andb_false_r; reflexivity.
Qed.

Lemma m_word_boundary fl r k x :
  m fl (WordB ;; r)%re k x
  = if xorb (word_before x) (word_after x) then m fl r k x else Miss.
Proof. reflexivity. Qed.

(** The keyword pattern matches exactly where the whole word stands. *)
Lemma exec_tell bef rest :
  exec fl_i re_tell (start_at bef rest) =
  match rest with
  | c1 :: c2 :: c3 :: c4 :: rest4 =>
      if word_at tell (hd_error bef) rest
      then Some (start_at (c4 :: c3 :: c2 :: c1 :: bef) rest4)
      else None
  | _ => None
  end.
Proof.
  unfold exec.
  change re_tell
    with (WordB ;; (Char 116 ;; Char 101 ;; Char 108 ;; Char 108) ;; WordB)%re.
  rewrite m_word_boundary, m_tell_tail. cbn [after start_at before caps].
  destruct (xorb _ _) eqn:Ex.
  - destruct rest as [|c1 [|c2 [|c3 [|c4 rest4]]]]; try reflexivity.
    rewrite word_at_tell.
    unfold word_before, word_after in Ex. cbn [before after start_at] in Ex.
    destruct (116 =? lower1 c1) eqn:E1;
      [|rewrite andb_false_r; reflexivity].
    rewrite (@lower1_word 116 c1 eq_refl) in Ex by (apply N.eqb_eq, E1).
    assert (Hp : is_word_opt (hd_error bef) = false)
      by (destruct bef; cbn [hd_error is_word_opt];
          [reflexivity | destruct (is_word _); [discriminate|reflexivity]]).
    rewrite Hp. cbn [negb andb].
    destruct (_ && _); reflexivity.
  - destruct rest as [|c1 [|c2 [|c3 [|c4 rest4]]]]; try reflexivity.
    rewrite word_at_tell.
    unfold word_before, word_after in Ex. cbn [before after start_at] in Ex.
    destruct (116 =? lower1 c1) eqn:E1;
      [|rewrite andb_false_r; reflexivity].
    rewrite (@lower1_word 116 c1 eq_refl) in Ex by (apply N.eqb_eq, E1).
    assert (Hp : is_word_opt (hd_error bef) = true)
      by (destruct bef; cbn [hd_error is_word_opt];
          [discriminate | destruct (is_word _); [reflexivity|discriminate]]).
    rewrite Hp. reflexivity.
Qed.

Lemma word_at_tell_first po c s :
  (116 =? lower1 c) = false -> word_at tell po (c :: s) = false.
Proof.
  intro E. unfold word_at, tell, toLowerCase.
  cbn [lit list_ascii_of_string map starts_with].
  change (N_of_ascii "t") with 116. rewrite E.
  rewrite andb_false_r. reflexivity.
Qed.

Lemma word_at_tell_inv po s :
  word_at tell po s = true ->
  exists c1 c2 c3 c4 s4,
    s = c1 :: c2 :: c3 :: c4 :: s4
    /\ 116 = lower1 c1 /\ 101 = lower1 c2 /\ 108 = lower1 c3
    /\ 108 = lower1 c4
    /\ is_word_opt (hd_error s4) = false /\ is_word_opt po = false.
Proof.
  intro H. destruct s as [|c1 [|c2 [|c3 [|c4 s4]]]];
    try (rewrite word_at_tell_short in H by (cbn [length]; lia);
         discriminate).
  rewrite word_at_tell in H.
  repeat match goal with
         | E : (_ && _) = true |- _ => apply andb_prop in E; destruct E
         end.
  exists c1, c2, c3, c4, s4.
  repeat match goal with
         | E : (_ =? _) = true |- _ => apply N.eqb_eq in E
         | E : negb _ = true |- _ => apply negb_true_iff in E
         end.
  repeat split; assumption.
Qed.

Lemma word_at_prev po po' w s :
  is_word_opt po = is_word_opt po' -> word_at w po s = word_at w po' s.
Proof. intro H. unfold word_at. rewrite H. reflexivity. Qed.

Lemma neut_nil bef : neut bef [] = [].
Proof. unfold neut. cbn [replace_go]. rewrite exec_tell. reflexivity. Qed.

Lemma neut_copy bef c rest :
  word_at tell (hd_error bef) (c :: rest) = false ->
  neut bef (c :: rest) = c :: neut (c :: bef) rest.
Proof.
  intro H. unfold neut. cbn [replace_go]. rewrite exec_tell.
  destruct rest as [|c2 [|c3 [|c4 rest4]]]; try reflexivity.
  rewrite H. reflexivity.
Qed.

Lemma neut_hit bef c1 c2 c3 c4 rest4 :
  word_at tell (hd_error bef) (c1 :: c2 :: c3 :: c4 :: rest4) = true ->
  neut bef (c1 :: c2 :: c3 :: c4 :: rest4)
  = lit "t_e_l_l" ++ neut (c4 :: c3 :: c2 :: c1 :: bef) rest4.
Proof.
  intro H. unfold neut. cbn [replace_go]. rewrite exec_tell, H.
  cbn [after start_at substitute]. rewrite expand_plain by reflexivity.
  replace (length (c1 :: c2 :: c3 :: c4 :: rest4) - length rest4)%nat
    with 4%nat by (cbn [length]; lia).
  reflexivity.
Qed.

(** After a word character the next character is copied. *)
Lemma neut_after_word bef c rest :
  is_word c = true ->
  neut (c :: bef) rest
  = match rest with
    | [] => []
    | c2 :: r2 => c2 :: neut (c2 :: c :: bef) r2
    end.
Proof.
  intro Hc. destruct rest as [|c2 r2]; [apply neut_nil|].
  apply neut_copy. unfold word_at. cbn [hd_error is_word_opt].
  rewrite Hc. reflexivity.
Qed.

(** A keyword at the head of the output stood at the head of the input. *)
Lemma neut_head po bef c rest :
  word_at tell po (c :: neut (c :: bef) rest) = true ->
  word_at tell po (c :: rest) = true.
Proof.
  intro H. apply word_at_tell_inv in H.
  destruct H as (x1 & x2 & x3 & x4 & X4 & Hs & E1 & E2 & E3 & E4 & Hn & Hp).
  injection Hs as <- Hs.
  rewrite (@neut_after_word _ c _ (@lower1_word 116 c eq_refl E1)) in Hs.
  destruct rest as [|c2 r2]; [discriminate|]. injection Hs as <- Hs.
  rewrite (@neut_after_word _ c2 _ (@lower1_word 101 c2 eq_refl E2)) in Hs.
  destruct r2 as [|c3 r3]; [discriminate|]. injection Hs as <- Hs.
  rewrite (@neut_after_word _ c3 _ (@lower1_word 108 c3 eq_refl E3)) in Hs.
  destruct r3 as [|c4 r4]; [discriminate|]. injection Hs as <- Hs.
  rewrite (@neut_after_word _ c4 _ (@lower1_word 108 c4 eq_refl E4)) in Hs.
  rewrite word_at_tell, Hp.
  rewrite <- E1, <- E2, <- E3, <- E4, !N.eqb_refl. cbn [negb andb].
  destruct r4 as [|c5 r5]; [reflexivity|].
  subst X4. cbn [hd_error] in *. rewrite Hn. reflexivity.
Qed.

Lemma has_word_chunk po X :
  has_word_go tell po (lit "t_e_l_l" ++ X) = has_word_go tell (Some 108) X.
Proof.
  change (lit "t_e_l_l") with [116; 95; 101; 95; 108; 95; 108].
  cbn [app has_word_go].
  rewrite word_at_tell.
  rewrite !(@word_at_tell_first _ 95), !(@word_at_tell_first _ 101),
    !(@word_at_tell_first _ 108) by reflexivity.
  change (101 =? lower1 95) with false.
  rewrite !andb_false_r. reflexivity.
Qed.

(** The output of the first keyword rule has the keyword nowhere. *)
Lemma neut_no_tell (n : nat) :
  forall rest bef po,
    (length rest <= n)%nat ->
    is_word_opt po = is_word_opt (hd_error bef) ->
    has_word_go tell po (neut bef rest) = false.
Proof.
  induction n as [|n IH]; intros rest bef po L Hpo.
  - destruct rest; [|cbn [length] in L; lia].
    rewrite neut_nil. cbn [has_word_go].
    rewrite word_at_tell_short by (cbn [length]; lia). reflexivity.
  - destruct rest as [|c rest].
    { rewrite neut_nil. cbn [has_word_go].
      rewrite word_at_tell_short by (cbn [length]; lia). reflexivity. }
    cbn [length] in L.
    destruct (word_at tell (hd_error bef) (c :: rest)) eqn:W.
    + pose proof W as W'. apply word_at_tell_inv in W'.
      destruct W' as (c1 & c2 & c3 & c4 & r4 & Hs & _ & _ & _ & E4 & _ & _).
      injection Hs as <- ->.
      rewrite neut_hit by exact W. rewrite has_word_chunk.
      apply IH; [cbn [length] in L; lia|].
      cbn [hd_error is_word_opt].
      rewrite (@lower1_word 108 c4 eq_refl E4). reflexivity.
    + rewrite neut_copy by exact W. cbn [has_word_go].
      rewrite (IH rest (c :: bef) (Some c)) by (try reflexivity; lia).
      rewrite orb_false_r.
      destruct (word_at tell po (c :: neut (c :: bef) rest)) eqn:Wo;
        [|reflexivity].
      apply neut_head in Wo.
      rewrite (@word_at_prev _ _ tell (c :: rest) Hpo) in Wo. congruence.
Qed.

Lemma replace_tell_no_tell s :
  has_word "tell" (replace fl_i re_tell (Template (lit "t_e_l_l")) s) = false.
Proof.
  unfold has_word, replace.
  apply (@neut_no_tell (length s) s [] None); [lia | reflexivity].
Qed.

(** The character right before the end of [pre], or [po] when [pre] is
    empty: what stands before [post] in [pre ++ post]. *)
Lemma has_word_go_split w pre :
  forall po post,
    has_word_go w po (pre ++ post) = false ->
    word_at w (match rev pre with c :: _ => Some c | [] => po end) post
    = false.
Proof.
  induction pre as [|c pre IH]; intros po post H.
  - cbn [app rev] in *. destruct post; cbn [has_word_go] in H;
      apply orb_false_iff in H; exact (proj1 H).
  - cbn [app has_word_go] in H. apply orb_false_iff in H.
    destruct H as [_ H]. apply IH in H. cbn [rev].
    destruct (rev pre); exact H.
Qed.


(** Case folding makes no letter a white space: with the [i] flag [\s]
    matches the same characters. *)
Lemma class_space_i c : class_matches fl_i false [CSpace] c = is_space c.
Proof.
  unfold class_matches. cbn [ignoreCase fl_i existsb xorb].
  rewrite orb_false_r. unfold item_matches_i. cbn [item_matches].
  assert (Hw : forall d, is_word d = true -> is_space d = false).
  { intros d Hd. destruct (is_space d) eqn:E; [|reflexivity].
    apply is_space_not_word in E. congruence. }
  unfold canonicalize. destruct (is_lower c) eqn:El.
  - assert (Hu : is_upper c = false).
    { unfold is_upper, is_lower in *. apply in_range_spec in El.
      destruct (in_range 65 90 c) eqn:Eu; [|reflexivity].
      apply in_range_spec in Eu. lia. }
    rewrite Hu, (Hw (c - 32)).
    + cbn [andb]. rewrite !orb_false_r. reflexivity.
    + unfold is_word, is_upper, is_lower in *. apply in_range_spec in El.
      replace (in_range 65 90 (c - 32)) with true; [reflexivity|].
      symmetry. apply in_range_spec. lia.
  - rewrite orb_diag. destruct (is_upper c) eqn:Eu;
      [|rewrite orb_false_r; reflexivity].
    rewrite (Hw (c + 32)); [rewrite orb_false_r; reflexivity|].
    unfold is_word, is_upper, is_lower in *. apply in_range_spec in Eu.
    replace (in_range 97 122 (c + 32)) with true;
      [rewrite orb_true_r; reflexivity|].
    symmetry. apply in_range_spec. lia.
Qed.

(** Where the second keyword pattern matches, the first keyword stands
    as a whole word after a white space. *)
Lemma exec_end_tell bef rest z :
  exec fl_i re_end_tell (start_at bef rest) = Some z ->
  exists pre c post,
    rest = (pre ++ [c]) ++ post /\ word_at tell (Some c) post = true.
Proof.
  unfold exec. intro H.
  destruct (m fl_i re_end_tell Hit (start_at bef rest)) eqn:E;
    try discriminate.
  clear H.
  change re_end_tell
    with (WordB ;; chars "end" ;; plus space ;;
          (Char 116 ;; Char 101 ;; Char 108 ;; Char 108) ;; WordB)%re in E.
  rewrite m_word_boundary in E.
  destruct (xorb _ _); [|discriminate].
  change (m fl_i (chars "end" ;; plus space ;;
                  (Char 116 ;; Char 101 ;; Char 108 ;; Char 108) ;; WordB)
            Hit (start_at bef rest))
    with (m fl_i (chars "end")
            (m fl_i (plus space ;;
                     (Char 116 ;; Char 101 ;; Char 108 ;; Char 108) ;; WordB)
               Hit) (start_at bef rest)) in E.
  apply m_reaches in E. destruct E as (y1 & E & (p1 & A1 & B1)).
  change (m fl_i (plus space ;;
                  (Char 116 ;; Char 101 ;; Char 108 ;; Char 108) ;; WordB)
            Hit y1)
    with (repeat_matcher (step_char (class_matches fl_i false [CSpace]))
            [] true
            (m fl_i ((Char 116 ;; Char 101 ;; Char 108 ;; Char 108) ;; WordB)
               Hit)
            (S (1 + length (after y1))) 1 None y1) in E.
  apply repeat_char_reaches in E.
  destruct E as (p2 & y2 & E & (A2 & B2) & Hsp & L).
  rewrite m_tell_tail in E.
  destruct (after y2) as [|c1 [|c2 [|c3 [|c4 rest4]]]] eqn:Ay;
    try discriminate.
  destruct (_ && _) eqn:Ew; [|discriminate].
  destruct (rev p2) as [|c q] eqn:Er.
  { apply (f_equal (@rev cu)) in Er. rewrite rev_involutive in Er.
    cbn [rev] in Er. subst p2. cbn [length] in L. lia. }
  assert (Hp2 : p2 = rev q ++ [c]).
  { apply (f_equal (@rev cu)) in Er. rewrite rev_involutive in Er.
    exact Er. }
  exists (p1 ++ rev q), c, (c1 :: c2 :: c3 :: c4 :: rest4).
  cbn [after start_at] in A1. split.
  - rewrite A1, A2, Hp2, <- !app_assoc. reflexivity.
  - rewrite word_at_tell, Ew. cbn [is_word_opt].
    rewrite is_space_not_word; [reflexivity|].
    rewrite Hp2, forallb_app in Hsp. apply andb_prop in Hsp.
    destruct Hsp as [_ Hc]. cbn [forallb] in Hc.
    rewrite andb_true_r in Hc.
    rewrite class_space_i in Hc. exact Hc.
Qed.

Lemma test_go_inv fl r rest :
  forall bef,
    test_go fl r bef rest = true ->
    exists pre post z,
      rest = pre ++ post
      /\ exec fl r (start_at (rev pre ++ bef) post) = Some z.
Proof.
  induction rest as [|c rest IH]; intros bef H; cbn [test_go] in H.
  - destruct (exec fl r (start_at bef [])) as [z|] eqn:E; [|discriminate].
    exists [], [], z. split; [reflexivity | exact E].
  - destruct (exec fl r (start_at bef (c :: rest))) as [z|] eqn:E.
    + exists [], (c :: rest), z. split; [reflexivity | exact E].
    + apply IH in H. destruct H as (pre & post & z & -> & Hz).
      exists (c :: pre), post, z. split; [reflexivity|].
      cbn [rev]. rewrite <- app_assoc. exact Hz.
Qed.

(** A text without the first keyword has no match of the second. *)
Lemma no_tell_no_end_tell s :
  has_word "tell" s = false -> test fl_i re_end_tell s = false.
Proof.
  intro H. destruct (test fl_i re_end_tell s) eqn:T; [|reflexivity].
  apply test_go_inv in T. destruct T as (pre & post & z & -> & Hz).
  apply exec_end_tell in Hz. destruct Hz as (pre2 & c & post2 & -> & W).
  unfold has_word in H. rewrite !app_assoc in H.
  apply has_word_go_split in H.
  rewrite rev_app_distr in H. cbn [rev app] in H.
  change (lit "tell") with tell in H. congruence.
Qed.

(** The second keyword rule finds nothing to do after the first. *)
Lemma neutralize_first_rule s :
  neutralize s = replace fl_i re_tell (Template (lit "t_e_l_l")) s.
Proof.
  unfold neutralize. apply replace_no_match, no_tell_no_end_tell.
  apply replace_tell_no_tell.
Qed.

(** After the keyword step the text has neither keyword. *)
Lemma neutralize_no_keyword s :
  has_word "tell" (neutralize s) = false
  /\ test fl_i re_end_tell (neutralize s) = false.
Proof.
  assert (H : has_word "tell" (neutralize s) = false)
    by (rewrite neutralize_first_rule; apply replace_tell_no_tell).
  split; [exact H | apply no_tell_no_end_tell, H].
Qed.
(* ------------------------------------------------------------------ *)
(** * escapeForAppleScript: the result *)

Lemma escape_of_string s :
  escapeForAppleScript (VString s) = Return (escape_text s).
Proof. destruct s; reflexivity. Qed.

Lemma maxLength_value : N.of_nat maxLength = 50000.
Proof. reflexivity. Qed.

Lemma marker_length : length marker = 15%nat.
Proof. reflexivity. Qed.

(** C2.  [escapeForAppleScript] can return the keyword it is written to
    take out: the whole words are rewritten first and the braces are
    removed afterwards, and what is left around a removed brace can be
    the word [tell]. *)
Theorem escape_rebuilds_tell :
  escapeForAppleScript (VString (lit "te{ll")) = Return (lit "tell")
  /\ includes (lit "tell") (toLowerCase (lit "tell")) = true
  /\ has_word "tell" (lit "tell") = true
  /\ ~ escape_claim (lit "tell").
Proof.
  split; [vm_compute; reflexivity|]. split; [vm_compute; reflexivity|].
  split; [vm_compute; reflexivity|].
  intros (_ & _ & _ & _ & _ & H & _). vm_compute in H. discriminate.
Qed.

(** X18.  For every text, what [escapeForAppleScript] returns has no NUL
    and no 0x1F character, no double quote without a backslash right
    before it, and no brace. *)
Theorem escape_has_no_brace_or_bare_quote (s : str) :
  exists out,
    escapeForAppleScript (VString s) = Return out
    /\ ~ In NUL out /\ ~ In US out
    /\ quotes_escaped out
    /\ ~ In LBRACE out /\ ~ In RBRACE out.
Proof.
  exists (escape_text s). split; [apply escape_of_string|].
  pose proof (escape_text_no_control s) as Hc.
  pose proof (escape_text_no_braces s) as Hb.
  rewrite Forall_forall in Hc, Hb.
  repeat split.
  - intro H. apply Hc in H. discriminate.
  - intro H. apply Hc in H. discriminate.
  - apply escape_text_quotes.
  - intro H. apply Hb in H. destruct H as [H _]. apply H. reflexivity.
  - intro H. apply Hb in H. destruct H as [_ H]. apply H. reflexivity.
Qed.

(** C4, the claim as it is worded fails: the marker comes on top of the
    50000 characters. *)
Lemma escape_longer_than_limit :
  ~ (N.of_nat (length (escape_text long_text)) <= 50000).
Proof.
  assert (H : N.of_nat (length (escape_text long_text)) = 50015)
    by (vm_compute; reflexivity).
  rewrite H. intro L. vm_compute in L. apply L. reflexivity.
Qed.

(** C4, amended.  An escaped text has at most 50015 characters: a text
    that has at most 50000 characters before the length check is returned
    as it is, a longer one is cut to its first 50000 characters and the
    marker of 15 characters is added. *)
Theorem escape_length (s : str) :
  N.of_nat (length (escape_text s)) <= 50015
  /\ (N.of_nat (length (escaped s)) <= 50000 ->
      escape_text s = escaped s)
  /\ (50000 < N.of_nat (length (escaped s)) ->
      escape_text s = firstn maxLength (escaped s) ++ lit "... (truncated)"
      /\ N.of_nat (length (escape_text s)) = 50015).
Proof.
  unfold escape_text, truncate, substring0.
  pose proof maxLength_value as Hm.
  destruct (Nat.ltb maxLength (length (escaped s))) eqn:E.
  - apply Nat.ltb_lt in E.
    assert (L : length (firstn maxLength (escaped s) ++ marker)
                = (maxLength + 15)%nat).
    { rewrite length_app, firstn_length_le, marker_length by lia.
      reflexivity. }
    rewrite L. split; [lia|]. split; [intro; lia|].
    intros _. split; [reflexivity | lia].
  - apply Nat.ltb_ge in E. split; [lia|]. split; [reflexivity|].
    intro. lia.
Qed.

Lemma escape_length_witness :
  escape_text long_text = firstn maxLength (escaped long_text)
                          ++ lit "... (truncated)"
  /\ N.of_nat (length (escape_text long_text)) = 50015.
Proof.
  assert (H : 50000 < N.of_nat (length (escaped long_text)))
    by (vm_compute; reflexivity).
  exact (proj2 (proj2 (escape_length long_text)) H).
Defined.

(* ------------------------------------------------------------------ *)
(** * convertHTMLToMarkdown: ordered lists *)

(** C5.  The callback of the ordered-list rule returns its text as it is,
    so the two characters [$1] stand where the text of the item should:
    the counter is right, the item is lost. *)
Lemma ordered_list_items_lost :
  convertHTMLToMarkdown (VString (lit "<ol><li>First</li><li>Second</li></ol>"))
  = Return (lit "1. $1" ++ [LF] ++ lit "2. $1").
Proof. vm_compute. reflexivity. Qed.

(* ------------------------------------------------------------------ *)
(** * Failures *)

(** C6, the claim as it is worded fails: [sanitizeHTML] has no guard for
    an absent text and calls [replace] on it. *)
Lemma sanitize_raises_on_null :
  sanitizeHTML VNull = Throw TypeError /\ ~ never_raises sanitizeHTML.
Proof.
  split; [reflexivity|]. intro H. destruct (H VNull) as [out Hout].
  discriminate Hout.
Qed.

(** C6, amended.  The four functions return a string for every string;
    [escapeForAppleScript] and [convertHTMLToMarkdown] also return the
    empty string for [null] and [undefined]. *)
Theorem total_on_strings :
  (forall s, exists out, escapeForAppleScript (VString s) = Return out)
  /\ (forall s, exists out, sanitizeHTML (VString s) = Return out)
  /\ (forall s, exists out, convertToHTML (VString s) = Return out)
  /\ (forall s, exists out, convertHTMLToMarkdown (VString s) = Return out)
  /\ escapeForAppleScript VNull = Return []
  /\ escapeForAppleScript VUndefined = Return []
  /\ convertHTMLToMarkdown VNull = Return []
  /\ convertHTMLToMarkdown VUndefined = Return [].
Proof.
  repeat split.
  - intro s. exists (escape_text s). apply escape_of_string.
  - intro s. exists (sanitize_text s). reflexivity.
  - intro s. exists (render_text s). reflexivity.
  - intros [|c s]; [exists []|exists (extract_text (c :: s))]; reflexivity.
Qed.

(** C7, the claim as it is worded fails: the empty string is rejected. *)
Lemma validate_rejects_empty_body :
  validateInput (VString []) "text" = Throw InvalidType
  /\ validateInput (VString []) "text" <> Return (trim []).
Proof. split; [reflexivity | discriminate]. Qed.

(** C7, amended.  For a kind other than title every string that is not
    empty is accepted and comes back trimmed, whatever its length and even
    when it is white space only; the failure for a wrong type is raised
    exactly for the empty string and for what is not a string. *)
Theorem validate_body :
  (forall s type,
      s <> [] -> type <> "title"%string ->
      validateInput (VString s) type = Return (trim s))
  /\ (forall v type,
         validateInput v type = Throw InvalidType
         <-> is_string v && truthy v = false).
Proof.
  split.
  - intros [|c s] type Hs Ht; [congruence|].
    apply String.eqb_neq in Ht. unfold validateInput.
    cbn [truthy negb]. rewrite Ht. reflexivity.
  - intros v type. destruct v as [| | b | n | [|c s]]; cbn [is_string truthy andb];
      try (split; [reflexivity | intros _; reflexivity]).
    unfold validateInput. cbn [truthy negb].
    destruct (String.eqb type "title" && _); [split; discriminate|].
    destruct (String.eqb type "title" && _); split; discriminate.
Qed.

Lemma validate_body_witness :
  validateInput (VString (lit "   ")) "text" = Return (trim (lit "   ")).
Proof.
  apply (proj1 validate_body); discriminate.
Defined.

(* ------------------------------------------------------------------ *)
(** * Rendering and extracting *)

(** C9.  The body of the scenario, rendered and extracted, is the body
    again: a heading line of level one, then a bold span, then an italic
    span, then two bullet lines. *)
Theorem scenario_round_trip :
  exists html out,
    convertToHTML (VString scenario_body) = Return html
    /\ convertHTMLToMarkdown (VString html) = Return out
    /\ out = scenario_body
    /\ exists between1 between2 between3,
         out = (lit "# " ++ lit "Heading" ++ [LF]) ++ between1
               ++ (lit "**" ++ lit "Bold" ++ lit "**") ++ between2
               ++ (lit "*" ++ lit "italic" ++ lit "*") ++ between3
               ++ (lit "- " ++ lit "Item 1" ++ [LF])
               ++ (lit "- " ++ lit "Item 2")
         /\ last between3 LF = LF.
Proof.
  exists (render_text scenario_body), (extract_text (render_text scenario_body)).
  split; [reflexivity|]. split; [vm_compute; reflexivity|].
  split; [vm_compute; reflexivity|].
  exists [LF], (lit " and "), (lit " text." ++ [LF; LF]).
  split; vm_compute; reflexivity.
Qed.
(* ------------------------------------------------------------------ *)
(** * trim and validateInput *)

Lemma drop_space_first s : space_first (drop_space s) = false.
Proof.
  induction s as [|c s IH]; [reflexivity|]. cbn [drop_space].
  destruct (is_space c) eqn:E; [exact IH|]. cbn [space_first]. exact E.
Qed.

Lemma drop_space_fixed s : space_first s = false -> drop_space s = s.
Proof.
  destruct s as [|c s]; [reflexivity|]. cbn [space_first drop_space].
  intros ->. reflexivity.
Qed.

(** What [drop_space] leaves is the end of the text. *)
Lemma drop_space_suffix s : exists p, s = p ++ drop_space s.
Proof.
  induction s as [|c s [p IH]]; [exists []; reflexivity|].
  cbn [drop_space]. destruct (is_space c).
  - exists (c :: p). cbn [app]. f_equal. exact IH.
  - exists []. reflexivity.
Qed.

Lemma drop_space_length s : (length (drop_space s) <= length s)%nat.
Proof.
  destruct (drop_space_suffix s) as [p H]. rewrite H at 2.
  rewrite length_app. lia.
Qed.

Lemma trim_length s : (length (trim s) <= length s)%nat.
Proof.
  unfold trim. rewrite length_rev.
  pose proof (drop_space_length (rev (drop_space s))) as H.
  rewrite length_rev in H. pose proof (drop_space_length s). lia.
Qed.

Lemma space_first_prefix a b :
  a <> [] -> space_first (a ++ b) = space_first a.
Proof. destruct a; [congruence | reflexivity]. Qed.

(** A trimmed text neither begins nor ends with white space. *)
Lemma trim_is_trimmed s : is_trimmed (trim s) = true.
Proof.
  unfold is_trimmed, trim. rewrite rev_involutive, drop_space_first.
  rewrite andb_true_r. apply negb_true_iff.
  destruct (drop_space_suffix (rev (drop_space s))) as [p H].
  apply (f_equal (@rev cu)) in H.
  rewrite rev_involutive, rev_app_distr in H.
  destruct (rev (drop_space (rev (drop_space s)))) as [|c t] eqn:E;
    [reflexivity|].
  pose proof (drop_space_first s) as F. rewrite H in F.
  cbn [app space_first] in *. exact F.
Qed.

Lemma trim_fixed t : is_trimmed t = true -> trim t = t.
Proof.
  unfold is_trimmed. intro H. apply andb_prop in H. destruct H as [H1 H2].
  apply negb_true_iff in H1, H2. unfold trim.
  rewrite (drop_space_fixed _ H1), (drop_space_fixed _ H2).
  apply rev_involutive.
Qed.

(** Trimming twice is trimming once. *)
Lemma trim_idempotent s : trim (trim s) = trim s.
Proof. apply trim_fixed, trim_is_trimmed. Qed.

(** X1.  What title validation returns is the trimmed input, it is not
    empty, it has at most 255 characters and it neither begins nor ends
    with white space. *)
Theorem validated_title (v : value) (t : str) :
  validateInput v "title" = Return t ->
  exists s, v = VString s /\ t = trim s
            /\ t <> [] /\ (length t <= 255)%nat /\ is_trimmed t = true.
Proof.
  destruct v as [| | b | n | s]; try discriminate.
  unfold validateInput. cbn [String.eqb Ascii.eqb Bool.eqb andb].
  destruct (negb (truthy (VString s))); [discriminate|].
  destruct (Nat.ltb 255 (length s)) eqn:L; [discriminate|].
  destruct (Nat.eqb (length (trim s)) 0) eqn:E; [discriminate|].
  intro H. injection H as <-. exists s.
  apply Nat.ltb_ge in L. apply Nat.eqb_neq in E.
  pose proof (trim_length s).
  repeat split; try lia; [|apply trim_is_trimmed].
  intro H0. rewrite H0 in E. apply E. reflexivity.
Qed.

Lemma validated_title_witness :
  exists s, VString (lit "  Shopping list ") = VString s
            /\ lit "Shopping list" = trim s
            /\ lit "Shopping list" <> []
            /\ (length (lit "Shopping list") <= 255)%nat
            /\ is_trimmed (lit "Shopping list") = true.
Proof.
  apply (@validated_title (VString (lit "  Shopping list "))).
  reflexivity.
Defined.

(** X2.  Validating again what validation returned changes nothing, as
    long as that is not the empty string (which only a kind other than
    title can return, for white space). *)
Theorem validate_again (v : value) (type : string) (t : str) :
  validateInput v type = Return t ->
  t <> [] ->
  validateInput (VString t) type = Return t.
Proof.
  destruct v as [| | b | n | s]; try discriminate.
  unfold validateInput.
  destruct (negb (truthy (VString s))); [discriminate|].
  destruct (String.eqb type "title") eqn:Et; cbn [andb].
  - destruct (Nat.ltb 255 (length s)) eqn:L; [discriminate|].
    destruct (Nat.eqb (length (trim s)) 0) eqn:E; [discriminate|].
    intros H Hne. injection H as <-.
    rewrite trim_idempotent, E.
    destruct (trim s) as [|c t] eqn:Es; [congruence|]. cbn [truthy negb].
    apply Nat.ltb_ge in L. pose proof (trim_length s) as Hl.
    rewrite Es in Hl.
    replace (Nat.ltb 255 (length (c :: t))) with false; [reflexivity|].
    symmetry. apply Nat.ltb_ge. lia.
  - intros H Hne. injection H as <-.
    rewrite trim_idempotent.
    destruct (trim s) as [|c t]; [congruence|]. reflexivity.
Qed.

Lemma validate_again_witness :
  validateInput (VString (lit "Shopping list")) "title"
  = Return (lit "Shopping list").
Proof.
  apply (@validate_again (VString (lit "  Shopping list ")) "title").
  - reflexivity.
  - discriminate.
Defined.
(* ------------------------------------------------------------------ *)
(** * Characters a match cannot do without *)

Section Requires.
Variable fl : flags.
Variable a : cu.

Lemma reaches_In x y c : reaches x y -> In c (after y) -> In c (after x).
Proof.
  intros (pre & A & _) H. rewrite A. apply in_or_app. right. exact H.
Qed.

Lemma m_requires (r : regex) :
  requires a r = true ->
  forall (k : cont) (x z : mstate),
    m fl r k x = Hit z ->
    exists c, In c (after x) /\ char_matches fl a c = true.
Proof.
  induction r as [ | b | neg items | | r1 IH1 r2 IH2 | r1 IH1 r2 IH2
                 | mn mx greedy r' IH | n r' IH | r' IH | | | ];
    cbn [requires]; intros Hr k x z H; try discriminate; cbn [m] in H.
  - apply N.eqb_eq in Hr. subst b. unfold step_char in H.
    destruct (after x) as [|c rest]; [discriminate|].
    destruct (char_matches fl a c) eqn:E; [|discriminate].
    exists c. split; [left; reflexivity | exact E].
  - apply orb_prop in Hr. destruct Hr as [Hr|Hr].
    + exact (IH1 Hr _ _ _ H).
    + apply m_reaches in H. destruct H as (y & H & R).
      destruct (IH2 Hr _ _ _ H) as (c & Hc & Hm).
      exists c. split; [exact (reaches_In _ R Hc) | exact Hm].
  - apply andb_prop in Hr. destruct Hr as [Hr1 Hr2].
    unfold or_else in H. destruct (m fl r1 k x) eqn:E1; try discriminate.
    + rewrite H in E1. exact (IH1 Hr1 _ _ _ E1).
    + exact (IH2 Hr2 _ _ _ H).
  - apply andb_prop in Hr. destruct Hr as [Hr Hr'].
    apply andb_prop in Hr. destruct Hr as [Hmn Hmx].
    cbn [repeat_matcher] in H.
    destruct mx as [[|mx']|]; try discriminate;
      rewrite Hmn in H;
      destruct (IH Hr' _ _ _ H) as (c & Hc & Hm);
      exists c; (split; [exact Hc | exact Hm]).
  - exact (IH Hr _ _ _ H).
Qed.

(** A text with no character for [a] has no match of [r]. *)
Lemma test_requires (r : regex) (s : str) :
  requires a r = true ->
  Forall (fun c => char_matches fl a c = false) s ->
  test fl r s = false.
Proof.
  intros Hr Hs. destruct (test fl r s) eqn:T; [|reflexivity].
  apply test_go_inv in T. destruct T as (pre & post & z & -> & Hz).
  unfold exec in Hz.
  destruct (m fl r Hit (start_at (rev pre ++ []) post)) eqn:E;
    try discriminate.
  destruct (m_requires _ Hr _ _ E) as (c & Hc & Hm).
  cbn [after start_at] in Hc. rewrite Forall_forall in Hs.
  rewrite Hs in Hm; [discriminate|]. apply in_or_app. right. exact Hc.
Qed.
End Requires.

(** With the [i] flag a pattern character that is no letter matches
    itself only. *)
Lemma char_matches_i_plain a c :
  is_upper a = false -> is_lower a = false ->
  char_matches fl_i a c = (a =? c).
Proof.
  intros Hu Hl. unfold char_matches, canonicalize. cbn [ignoreCase fl_i].
  rewrite Hl. destruct (is_lower c) eqn:Ec; [|reflexivity].
  unfold is_lower, is_upper in *. apply in_range_spec in Ec.
  destruct (N.eqb_spec a (c - 32)) as [E|E]; destruct (N.eqb_spec a c) as [E'|E'];
    try reflexivity; exfalso.
  - assert (Hin : in_range 65 90 a = true) by (apply in_range_spec; lia).
    congruence.
  - subst a. assert (Hin : in_range 97 122 c = true)
      by (apply in_range_spec; lia). congruence.
Qed.

Lemma char_matches_none a c :
  char_matches fl_none a c = (a =? c).
Proof. reflexivity. Qed.
(* ------------------------------------------------------------------ *)
(** * Texts the rules leave alone *)

Lemma replace_st_go_no_match (S : Type) fl r (f : S -> mresult -> S * str)
    (st : S) rest :
  forall bef,
    test_go fl r bef rest = false ->
    replace_st_go fl r f st 0 bef rest = (st, rest).
Proof.
  induction rest as [|c rest IH]; intros bef H;
    cbn [replace_st_go test_go] in *.
  - destruct (exec fl r (start_at bef [])); [discriminate | reflexivity].
  - destruct (exec fl r (start_at bef (c :: rest))); [discriminate|].
    rewrite (IH _ H). reflexivity.
Qed.

Lemma replace_st_no_match (S : Type) fl r (f : S -> mresult -> S * str)
    (st : S) s :
  test fl r s = false -> replace_st fl r f st s = (st, s).
Proof. apply replace_st_go_no_match. Qed.

(** No character of [s] is [a]. *)
Lemma free_of_char_i a s :
  is_upper a = false -> is_lower a = false ->
  ~ In a s -> Forall (fun c => char_matches fl_i a c = false) s.
Proof.
  intros Hu Hl Hs. apply Forall_forall. intros c Hc.
  rewrite char_matches_i_plain by assumption.
  apply N.eqb_neq. intros ->. exact (Hs Hc).
Qed.

Lemma free_of_char a s :
  ~ In a s -> Forall (fun c => char_matches fl_none a c = false) s.
Proof.
  intros Hs. apply Forall_forall. intros c Hc.
  apply N.eqb_neq. intros ->. exact (Hs Hc).
Qed.

(** X9.  A text without [<], [=] and [:] is returned as it is by
    [sanitizeHTML]. *)
Theorem sanitize_leaves_plain_text (s : str) :
  ~ In 60 s -> ~ In 61 s -> ~ In 58 s ->
  sanitizeHTML (VString s) = Return s.
Proof.
  intros Hlt Heq Hcolon. unfold sanitizeHTML. cbn [as_string]. f_equal.
  rewrite sanitize_text_fold. apply removes_clean.
  pose proof (@free_of_char_i 60 s eq_refl eq_refl Hlt) as F60.
  pose proof (@free_of_char_i 61 s eq_refl eq_refl Heq) as F61.
  pose proof (@free_of_char_i 58 s eq_refl eq_refl Hcolon) as F58.
  unfold denylist, dangerous. cbn [map forallb].
  rewrite (@test_requires fl_i 60 re_script_block s eq_refl F60).
  rewrite (@test_requires fl_i 61 re_handler s eq_refl F61).
  rewrite (@test_requires fl_i 58 re_javascript s eq_refl F58).
  rewrite !(fun tag H => @test_requires fl_i 60 (re_tag tag) s H F60)
    by reflexivity.
  reflexivity.
Qed.

Lemma sanitize_leaves_plain_text_witness :
  sanitizeHTML (VString (lit "# Shopping list")) = Return (lit "# Shopping list").
Proof.
  apply sanitize_leaves_plain_text; vm_compute; intuition discriminate.
Defined.

(** X13.  [convertHTMLToMarkdown] changes a text without [<] and [&] in two
    ways only: runs of three or more newlines become two newlines, and the
    white space at both ends is removed. *)
Theorem extract_leaves_plain_text (s : str) :
  ~ In 60 s -> ~ In 38 s ->
  convertHTMLToMarkdown (VString s)
  = Return (trim (replace fl_none re_newlines (Template [LF; LF]) s)).
Proof.
  intros Hlt Hamp. destruct s as [|c0 s0]; [reflexivity|].
  set (s := c0 :: s0) in *.
  unfold convertHTMLToMarkdown. cbn [truthy negb as_string]. fold s. f_equal.
  pose proof (@free_of_char_i 60 s eq_refl eq_refl Hlt) as F60i.
  pose proof (@free_of_char 60 s Hlt) as F60.
  pose proof (@free_of_char 38 s Hamp) as F38.
  assert (Ti : forall r, requires 60 r = true -> test fl_i r s = false)
    by (intros r Hr; exact (@test_requires fl_i 60 r s Hr F60i)).
  assert (Tn : forall r, requires 60 r = true -> test fl_none r s = false)
    by (intros r Hr; exact (@test_requires fl_none 60 r s Hr F60)).
  assert (Ta : forall r, requires 38 r = true -> test fl_none r s = false)
    by (intros r Hr; exact (@test_requires fl_none 38 r s Hr F38)).
  unfold extract_text, heading_rule, wrap_rule, entity_rule.
  rewrite (@replace_no_match fl_none re_comment _ s (Tn re_comment eq_refl)).
  repeat rewrite (fun r rep H => @replace_no_match fl_i r rep s (Ti r H))
    by reflexivity.
  rewrite (@replace_st_no_match nat fl_i (re_element "ol") _ 0%nat s
             (Ti (re_element "ol") eq_refl)).
  cbv beta iota.
  repeat rewrite (fun r rep H => @replace_no_match fl_i r rep s (Ti r H))
    by reflexivity.
  rewrite (@replace_no_match fl_none re_any_tag _ s (Tn re_any_tag eq_refl)).
  repeat rewrite (fun r rep H => @replace_no_match fl_none r rep s (Ta r H))
    by reflexivity.
  reflexivity.
Qed.

Lemma extract_leaves_plain_text_witness :
  convertHTMLToMarkdown (VString (lit " Milk, eggs "))
  = Return (trim (replace fl_none re_newlines (Template [LF; LF])
                    (lit " Milk, eggs "))).
Proof.
  apply extract_leaves_plain_text; vm_compute; intuition discriminate.
Defined.
(* ------------------------------------------------------------------ *)
(** * escapeForAppleScript: more on the result *)

(** Replacing every character that satisfies [q] by a text without such
    characters leaves none. *)
Lemma replace_single_kills fl r p (q : cu -> bool) t s :
  single fl r p -> plain t = true ->
  Forall (fun c => q c = false) t ->
  (forall c, q c = true -> p c = true) ->
  Forall (fun c => q c = false) (replace fl r (Template t) s).
Proof.
  intros Hs Hp Ht Hq. rewrite (replace_single Hs) by exact Hp.
  induction s as [|c s IH]; cbn [flat_map]; [constructor|].
  apply Forall_app. split; [|exact IH].
  destruct (p c) eqn:Ep; [exact Ht|].
  constructor; [|constructor].
  destruct (q c) eqn:Eq; [|reflexivity]. apply Hq in Eq. congruence.
Qed.

Ltac peel_step :=
  apply replace_Forall; [reflexivity | repeat constructor | ].

Lemma escape_text_no_tab s :
  Forall (fun c => (c =? TAB) = false) (escape_text s).
Proof.
  unfold escape_text. apply truncate_survives; [repeat constructor|].
  unfold escaped, escape_chain. do 3 peel_step.
  apply replace_single_kills with (p := class_matches fl_none false [CChar TAB]);
    [apply single_class | reflexivity | repeat constructor |].
  intros c Hc. apply N.eqb_eq in Hc. subst c. reflexivity.
Qed.

Lemma escape_text_no_newline s :
  Forall (fun c => (c =? LF) = false) (escape_text s).
Proof.
  unfold escape_text. apply truncate_survives; [repeat constructor|].
  unfold escaped, escape_chain. do 4 peel_step.
  apply replace_single_kills with (p := char_matches fl_none LF);
    [apply single_char | reflexivity | repeat constructor |].
  intros c Hc. apply N.eqb_eq in Hc. subst c. reflexivity.
Qed.

Lemma escape_text_no_return s :
  Forall (fun c => (c =? CR) = false) (escape_text s).
Proof.
  unfold escape_text. apply truncate_survives; [repeat constructor|].
  unfold escaped, escape_chain. do 5 peel_step.
  apply replace_single_kills with (p := char_matches fl_none CR);
    [apply single_char | reflexivity | repeat constructor |].
  intros c Hc. apply N.eqb_eq in Hc. subst c. reflexivity.
Qed.

Lemma escape_text_no_separator s :
  Forall (fun c => class_matches fl_none false
                     [CChar 0x2028; CChar 0x2029] c = false) (escape_text s).
Proof.
  unfold escape_text, escaped.
  apply truncate_survives; [vm_compute; repeat constructor|].
  apply escape_chain_survives; [vm_compute; repeat constructor|].
  unfold strip. peel_step.
  apply remove_single_none. apply single_class.
Qed.

Lemma escape_text_no_zero_width s :
  Forall (fun c => class_matches fl_none false
                     [CRange 0x200B 0x200F; CRange 0x202A 0x202E;
                      CRange 0x2060 0x2064; CRange 0x206A 0x206F;
                      CChar 0xFEFF] c = false) (escape_text s).
Proof.
  unfold escape_text, escaped.
  apply truncate_survives; [vm_compute; repeat constructor|].
  apply escape_chain_survives; [vm_compute; repeat constructor|].
  unfold strip.
  apply remove_single_none. apply single_class.
Qed.

(** X3.  An escaped text is one line of visible characters: it has no
    control character (no tab, newline or return either), no line or
    paragraph separator and no zero-width or direction character. *)
Theorem escape_has_no_raw_character (s : str) :
  exists out, escapeForAppleScript (VString s) = Return out
              /\ Forall (fun c => raw c = false) out.
Proof.
  exists (escape_text s). split; [apply escape_of_string|].
  pose proof (escape_text_no_control s) as H1.
  pose proof (escape_text_no_tab s) as H2.
  pose proof (escape_text_no_newline s) as H3.
  pose proof (escape_text_no_return s) as H4.
  pose proof (escape_text_no_separator s) as H5.
  pose proof (escape_text_no_zero_width s) as H6.
  rewrite Forall_forall in *. intros c Hc.
  specialize (H1 c Hc). specialize (H2 c Hc). specialize (H3 c Hc).
  specialize (H4 c Hc). specialize (H5 c Hc). specialize (H6 c Hc).
  unfold class_matches in H1, H5, H6.
  cbn [ignoreCase fl_none existsb item_matches xorb] in H1, H5, H6.
  repeat match goal with
         | H : (_ || _) = false |- _ =>
             apply orb_false_iff in H; destruct H
         end.
  repeat match goal with
         | H : in_range _ _ c = false |- _ =>
             unfold in_range in H; apply andb_false_iff in H
         | H : (_ =? _) = false |- _ => apply N.eqb_neq in H
         end.
  unfold TAB, LF, CR in *.
  apply not_true_is_false. intro R. unfold raw, in_range in R.
  repeat match type of R with
         | (_ || _) = true => apply orb_prop in R; destruct R as [R|R]
         end;
    try (apply andb_prop in R; destruct R as [R R']; apply N.leb_le in R, R');
    try apply N.ltb_lt in R; try apply N.eqb_eq in R;
    repeat match goal with
           | H : _ \/ _ |- _ => destruct H as [H|H]
           | H : (_ <=? _) = false |- _ => apply N.leb_gt in H
           end; lia.
Qed.
(* ------------------------------------------------------------------ *)
(** * escapeForAppleScript: escape pairs *)

Lemma tok_after_quote_step s :
  tok false
    (flat_map (fun c => if char_matches fl_none DQ c then [BS; DQ] else [c])
       (flat_map (fun c => if char_matches fl_none BS c then [BS; BS] else [c])
          s)) = true.
Proof.
  induction s as [|c s IH]; [reflexivity|].
  cbn [flat_map]. rewrite flat_map_app. unfold char_matches at 2.
  cbn [ignoreCase fl_none]. destruct (BS =? c) eqn:Eb.
  - cbn [flat_map app]. exact IH.
  - cbn [flat_map app]. unfold char_matches at 1. cbn [ignoreCase fl_none].
    destruct (DQ =? c) eqn:Eq.
    + cbn [app]. exact IH.
    + cbn [app tok]. rewrite (N.eqb_sym c BS), Eb, (N.eqb_sym c DQ), Eq.
      exact IH.
Qed.

Section KeepsTokens.
Variable fl : flags.
Variable r : regex.
Variable t : str.
Hypothesis r_inert : matches_only fl r (fun c => negb (escapable c)).
Hypothesis t_plain : plain t = true.
Hypothesis t_complete : forall X, tok false (t ++ X) = tok false X.

Lemma tok_inert esc c s :
  negb (escapable c) = true -> tok esc (c :: s) = true ->
  esc = false /\ tok false s = true.
Proof.
  intros Hc H. apply negb_true_iff in Hc. cbn [tok] in H.
  destruct esc; [rewrite Hc in H; discriminate|].
  unfold escapable in Hc. apply orb_false_iff in Hc. destruct Hc as [Hc _].
  apply orb_false_iff in Hc. destruct Hc as [Hc _].
  apply orb_false_iff in Hc. destruct Hc as [Hb Hq].
  rewrite Hb, Hq in H. split; [reflexivity | exact H].
Qed.

(** Replacing characters that no pair has by whole pairs keeps the
    pairs whole. *)
Lemma replace_go_keeps_tok :
  forall rest skip bef esc,
    tok esc rest = true ->
    forallb (fun c => negb (escapable c)) (firstn skip rest) = true ->
    tok (match skip with O => esc | S _ => false end)
      (replace_go fl r (Template t) skip bef rest) = true.
Proof.
  induction rest as [|c rest IH]; intros skip bef esc Hin Hskip.
  - destruct skip; cbn [replace_go]; [|reflexivity].
    destruct (exec fl r (start_at bef [])) as [z|] eqn:E; [|exact Hin].
    apply r_inert in E. cbn [length] in E. lia.
  - assert (Hskipped : forall n,
               forallb (fun c => negb (escapable c))
                 (firstn (S n) (c :: rest)) = true ->
               esc = false
               /\ tok false
                    (replace_go fl r (Template t) n (c :: bef) rest) = true).
    { intros n Hn. cbn [firstn forallb] in Hn.
      apply andb_prop in Hn. destruct Hn as [Hok Hn].
      destruct (@tok_inert esc c rest Hok Hin) as [-> Hrest]. split; [reflexivity|].
      pose proof (IH n (c :: bef) false Hrest Hn) as H.
      destruct n; exact H. }
    destruct skip; cbn [replace_go]; [|exact (proj2 (Hskipped _ Hskip))].
    destruct (exec fl r (start_at bef (c :: rest))) as [z|] eqn:E.
    + apply r_inert in E. destruct E as [En Eok].
      cbn [substitute]. rewrite expand_plain by exact t_plain.
      case_match_length; [lia|].
      destruct (Hskipped _ Eok) as [-> H]. rewrite t_complete. exact H.
    + cbn [tok] in *. destruct esc.
      * apply andb_prop in Hin. destruct Hin as [H1 H2]. rewrite H1.
        exact (IH 0%nat (c :: bef) false H2 eq_refl).
      * destruct (c =? BS).
        -- exact (IH 0%nat (c :: bef) true Hin eq_refl).
        -- apply andb_prop in Hin. destruct Hin as [H1 H2]. rewrite H1.
           exact (IH 0%nat (c :: bef) false H2 eq_refl).
Qed.

Lemma replace_keeps_tok s :
  tok false s = true -> tok false (replace fl r (Template t) s) = true.
Proof.
  intro H. exact (@replace_go_keeps_tok s 0%nat [] false H eq_refl).
Qed.
End KeepsTokens.

Lemma crlf_matches_only_ok (ok : cu -> bool) :
  ok CR = true -> ok LF = true ->
  matches_only fl_none (Char CR ;; Char LF) ok.
Proof.
  intros Hcr Hlf bef rest z E.
  destruct rest as [|c1 [|c2 rest]]; try discriminate E.
  - unfold exec in E. cbn [m] in E. unfold step_char in E.
    cbn [after start_at] in E.
    destruct (char_matches fl_none CR c1); discriminate E.
  - unfold exec in E. cbn [m] in E. unfold step_char in E.
    cbn [after start_at advance] in E.
    destruct (char_matches fl_none CR c1) eqn:E1; [|discriminate E].
    destruct (char_matches fl_none LF c2) eqn:E2; [|discriminate E].
    injection E as <-. cbn [after advance].
    replace (length (c1 :: c2 :: rest) - length rest)%nat with 2%nat
      by (cbn [length]; lia).
    apply N.eqb_eq in E1, E2. subst c1 c2. split; [lia|].
    cbn [firstn forallb]. rewrite Hcr, Hlf. reflexivity.
Qed.

(** The characters of a class or of a pattern character are in no
    escape pair. *)
Ltac solve_inert :=
  let c := fresh "c" in let Hc := fresh "Hc" in
  intros c Hc;
  unfold char_matches, class_matches in Hc;
  cbn [ignoreCase fl_none existsb item_matches xorb] in Hc;
  repeat match type of Hc with
         | (_ || _) = true => apply orb_prop in Hc; destruct Hc as [Hc|Hc]
         end;
  try discriminate Hc;
  apply N.eqb_eq in Hc; subst c; reflexivity.

(** Before the length check the text is made of whole escape pairs and
    of characters that are neither a backslash nor a double quote. *)
Lemma escaped_tok s : tok false (escaped s) = true.
Proof.
  unfold escaped, escape_chain.
  repeat (apply replace_keeps_tok;
          [ first [ apply crlf_matches_only_ok; reflexivity
                  | eapply single_matches_only;
                    [ first [apply single_char | apply single_class]
                    | solve_inert ] ]
          | reflexivity | intro X; reflexivity | ]).
  rewrite (@replace_single fl_none (Char DQ) (char_matches fl_none DQ)
             (single_char fl_none DQ) [BS; DQ] _ eq_refl),
    (@replace_single fl_none (Char BS) (char_matches fl_none BS)
       (single_char fl_none BS) [BS; BS] _ eq_refl).
  apply tok_after_quote_step.
Qed.

Lemma tok_split pre :
  forall esc x,
    tok esc (pre ++ x) = true -> tok (tok_state esc pre) x = true.
Proof.
  induction pre as [|c pre IH]; intros esc x H; [exact H|].
  cbn [app tok tok_state] in *. apply IH. destruct esc.
  - apply andb_prop in H. exact (proj2 H).
  - destruct (c =? BS); [exact H|].
    apply andb_prop in H. exact (proj2 H).
Qed.

Lemma tok_state_app p q esc :
  tok_state esc (p ++ q) = tok_state (tok_state esc p) q.
Proof.
  revert esc. induction p as [|c p IH]; intro esc; [reflexivity|].
  cbn [app tok_state]. apply IH.
Qed.

(** The state is the parity of the backslashes at the end. *)
Lemma tok_state_parity pre : tok_state false pre = Nat.odd (run (rev pre)).
Proof.
  induction pre as [|c pre IH] using rev_ind; [reflexivity|].
  rewrite tok_state_app, rev_app_distr. cbn [rev app tok_state run].
  rewrite IH. destruct (c =? BS).
  - rewrite Nat.odd_succ, <- Nat.negb_odd.
    destruct (Nat.odd (run (rev pre))); reflexivity.
  - destruct (Nat.odd (run (rev pre))); reflexivity.
Qed.

Lemma tok_quotes s : tok false s = true -> quotes_properly_escaped s.
Proof.
  intros H pre post ->. apply tok_split in H.
  rewrite <- tok_state_parity.
  destruct (tok_state false pre); [reflexivity|].
  cbn [tok] in H. discriminate H.
Qed.

Lemma quotes_properly_escaped_firstn n s :
  quotes_properly_escaped s -> quotes_properly_escaped (firstn n s).
Proof.
  intros H pre post E. apply (H pre (post ++ skipn n s)).
  rewrite <- (firstn_skipn n s) at 1. rewrite E, <- app_assoc. reflexivity.
Qed.

Lemma quotes_properly_escaped_app s t :
  ~ In DQ t ->
  quotes_properly_escaped s -> quotes_properly_escaped (s ++ t).
Proof.
  intros Ht H pre post E.
  revert pre E H. induction s as [|c s IH]; intros pre E H.
  - exfalso. apply Ht. cbn [app] in E. rewrite E.
    apply in_or_app. right. left. reflexivity.
  - destruct pre as [|c' pre].
    + cbn [app] in E. injection E as -> _. apply (H [] s). reflexivity.
    + cbn [app] in E. injection E as <- E.
      cbn [rev].
      assert (Hs : quotes_properly_escaped s -> Nat.odd (run (rev pre)) = true)
        by (intro Hs; exact (IH pre E Hs)).
      clear IH.
      (* the quote lies in [s]: take it there *)
      assert (Hin : exists post', s = pre ++ DQ :: post').
      { clear - E Ht. revert pre E. induction s as [|d s IHs]; intros pre E.
        - exfalso. apply Ht. cbn [app] in E. rewrite E.
          apply in_or_app. right. left. reflexivity.
        - destruct pre as [|d' pre].
          + cbn [app] in E. injection E as -> _. exists s. reflexivity.
          + cbn [app] in E. injection E as <- E.
            destruct (IHs pre E) as [post' ->]. exists post'. reflexivity. }
      destruct Hin as [post' ->].
      exact (H (c :: pre) post' eq_refl).
Qed.

(** X4.  Before the length check an escaped text is made of the pairs
    backslash-backslash, backslash-quote, backslash-n, backslash-t and of
    single characters that are neither a backslash nor a double quote;
    and in the text that is returned every double quote has an odd number
    of backslashes right before it. *)
Theorem escape_pairs (s : str) :
  exists out, escapeForAppleScript (VString s) = Return out
              /\ tok false (escaped s) = true
              /\ quotes_properly_escaped out.
Proof.
  exists (escape_text s). split; [apply escape_of_string|].
  split; [apply escaped_tok|].
  unfold escape_text, truncate.
  pose proof (tok_quotes (escaped_tok s)) as H.
  destruct (Nat.ltb maxLength (length (escaped s))); [|exact H].
  apply quotes_properly_escaped_app.
  - vm_compute. intuition discriminate.
  - apply quotes_properly_escaped_firstn, H.
Qed.
(* ------------------------------------------------------------------ *)
(** * escapeForAppleScript: texts and steps without effect *)

Lemma test_tell_has_word rest :
  forall bef,
    test_go fl_i re_tell bef rest = has_word_go tell (hd_error bef) rest.
Proof.
  induction rest as [|c rest IH]; intro bef; cbn [test_go has_word_go];
    rewrite exec_tell.
  - rewrite word_at_tell_short by (cbn [length]; lia). reflexivity.
  - pose proof (IH (c :: bef)) as IH'. cbn [hd_error] in IH'.
    rewrite <- IH'.
    destruct rest as [|c2 [|c3 [|c4 r4]]];
      try (rewrite word_at_tell_short by (cbn [length]; lia); reflexivity).
    destruct (word_at tell (hd_error bef) (c :: c2 :: c3 :: c4 :: r4));
      reflexivity.
Qed.

Lemma neut_length (n : nat) :
  forall rest bef,
    (length rest <= n)%nat ->
    (4 * length (neut bef rest) <= 7 * length rest)%nat.
Proof.
  induction n as [|n IH]; intros rest bef L.
  - destruct rest; [|cbn [length] in L; lia]. rewrite neut_nil. lia.
  - destruct rest as [|c rest]; [rewrite neut_nil; cbn [length]; lia|].
    cbn [length] in L.
    destruct (word_at tell (hd_error bef) (c :: rest)) eqn:W.
    + pose proof W as W'. apply word_at_tell_inv in W'.
      destruct W' as (c1 & c2 & c3 & c4 & r4 & Hs & _).
      injection Hs as <- ->.
      rewrite neut_hit by exact W. rewrite length_app.
      cbn [length] in *.
      pose proof (IH r4 (c4 :: c3 :: c2 :: c :: bef)).
      change (length (lit "t_e_l_l")) with 7%nat. lia.
    + rewrite neut_copy by exact W. cbn [length].
      pose proof (IH rest (c :: bef)). lia.
Qed.

Lemma neutralize_length s :
  (4 * length (neutralize s) <= 7 * length s)%nat.
Proof.
  rewrite neutralize_first_rule. apply (@neut_length (length s)). lia.
Qed.

Lemma ordinary_spec c :
  ordinary c = true ->
  32 <= c /\ c <> 127 /\ raw c = false
  /\ c <> DQ /\ c <> BS /\ c <> LBRACE /\ c <> RBRACE.
Proof.
  unfold ordinary. intro H.
  repeat (apply andb_prop in H; destruct H as [H ?]).
  repeat match goal with
         | E : negb _ = true |- _ => apply negb_true_iff in E
         end.
  repeat match goal with
         | E : (_ =? _) = false |- _ => apply N.eqb_neq in E
         end.
  assert (R := H). unfold raw in R.
  repeat (apply orb_false_iff in R; destruct R as [R ?]).
  apply N.ltb_ge in R.
  repeat match goal with
         | E : (_ =? _) = false |- _ => apply N.eqb_neq in E
         end.
  repeat split; assumption.
Qed.

Lemma ordinary_class_false items s :
  Forall (fun c => ordinary c = true) s ->
  (forall c, ordinary c = true ->
             class_matches fl_none false items c = false) ->
  Forall (fun c => class_matches fl_none false items c = false) s.
Proof. intros Hs H. eapply Forall_impl; [|exact Hs]. exact H. Qed.

Lemma ordinary_not_control c :
  ordinary c = true ->
  class_matches fl_none false
    [CRange 0 8; CChar 11; CChar 12; CRange 14 31; CChar 127] c = false.
Proof.
  intro H. apply ordinary_spec in H. destruct H as (L & N127 & _).
  unfold class_matches. cbn [ignoreCase fl_none existsb item_matches xorb].
  unfold in_range.
  repeat match goal with
         | |- context [?a <=? ?b] => destruct (N.leb_spec a b)
         | |- context [?a =? ?b] => destruct (N.eqb_spec a b)
         end; cbn [andb orb]; try reflexivity; lia.
Qed.

Lemma ordinary_not_separator c :
  ordinary c = true ->
  class_matches fl_none false [CChar 0x2028; CChar 0x2029] c = false.
Proof.
  intro H. apply ordinary_spec in H. destruct H as (_ & _ & R & _).
  unfold raw in R.
  repeat (apply orb_false_iff in R; destruct R as [R ?]).
  unfold class_matches. cbn [ignoreCase fl_none existsb item_matches xorb].
  match goal with
  | E : in_range 8232 8233 c = false |- _ =>
      unfold in_range in E; apply andb_false_iff in E
  end.
  repeat match goal with
         | |- context [?a =? ?b] => destruct (N.eqb_spec a b)
         end; cbn [orb]; try reflexivity; exfalso;
    repeat match goal with
           | E : _ \/ _ |- _ => destruct E as [E|E]
           | E : (_ <=? _) = false |- _ => apply N.leb_gt in E
           end; lia.
Qed.

Lemma ordinary_not_zero_width c :
  ordinary c = true ->
  class_matches fl_none false
    [CRange 0x200B 0x200F; CRange 0x202A 0x202E; CRange 0x2060 0x2064;
     CRange 0x206A 0x206F; CChar 0xFEFF] c = false.
Proof.
  intro H. apply ordinary_spec in H. destruct H as (_ & _ & R & _).
  unfold raw in R.
  repeat (apply orb_false_iff in R; destruct R as [R ?]).
  unfold class_matches. cbn [ignoreCase fl_none existsb item_matches xorb].
  repeat match goal with
         | E : ?x = false |- context [?x] => rewrite E
         end.
  rewrite N.eqb_sym.
  repeat match goal with
         | E : ?x = false |- context [?x] => rewrite E
         end.
  reflexivity.
Qed.

Lemma ordinary_not_char a s :
  ordinary a = false ->
  Forall (fun c => ordinary c = true) s ->
  Forall (fun c => char_matches fl_none a c = false) s.
Proof.
  intros Ha Hs. eapply Forall_impl; [|exact Hs].
  intros c Hc. apply N.eqb_neq. intros ->. congruence.
Qed.

Lemma ordinary_not_class items s :
  forallb (fun it => match it with
                     | CChar a => negb (ordinary a)
                     | _ => false
                     end) items = true ->
  Forall (fun c => ordinary c = true) s ->
  Forall (fun c => class_matches fl_none false items c = false) s.
Proof.
  intros Hi Hs. eapply Forall_impl; [|exact Hs].
  intros c Hc. unfold class_matches. cbn [ignoreCase fl_none xorb].
  induction items as [|it items IH]; [reflexivity|].
  cbn [forallb existsb] in *. apply andb_prop in Hi. destruct Hi as [H1 H2].
  rewrite (IH H2), orb_false_r.
  destruct it; try discriminate. cbn [item_matches].
  apply negb_true_iff in H1. apply N.eqb_neq. intros ->. congruence.
Qed.

(** On a text of ordinary characters the steps after the keyword step
    change nothing. *)
Lemma strip_ordinary t :
  Forall (fun c => ordinary c = true) t -> strip t = t.
Proof.
  intro H. unfold strip.
  rewrite (@replace_no_match fl_none re_control _ t)
    by (apply (test_single_none (single_class _ _ _));
        eapply Forall_impl; [|exact H]; apply ordinary_not_control).
  rewrite (@replace_no_match fl_none re_separators _ t)
    by (apply (test_single_none (single_class _ _ _));
        eapply Forall_impl; [|exact H]; apply ordinary_not_separator).
  apply replace_no_match.
  apply (test_single_none (single_class _ _ _)).
  eapply Forall_impl; [|exact H]. apply ordinary_not_zero_width.
Qed.

Lemma escape_chain_ordinary t :
  Forall (fun c => ordinary c = true) t -> escape_chain t = t.
Proof.
  intro H. unfold escape_chain.
  rewrite (@replace_no_match fl_none (Char BS) _ t)
    by (apply (@test_requires fl_none BS); [reflexivity|];
        apply ordinary_not_char; [reflexivity | exact H]).
  rewrite (@replace_no_match fl_none (Char DQ) _ t)
    by (apply (@test_requires fl_none DQ); [reflexivity|];
        apply ordinary_not_char; [reflexivity | exact H]).
  rewrite (@replace_no_match fl_none (Char CR ;; Char LF) _ t)
    by (apply (@test_requires fl_none CR); [reflexivity|];
        apply ordinary_not_char; [reflexivity | exact H]).
  rewrite (@replace_no_match fl_none (Char CR) _ t)
    by (apply (@test_requires fl_none CR); [reflexivity|];
        apply ordinary_not_char; [reflexivity | exact H]).
  rewrite (@replace_no_match fl_none (Char LF) _ t)
    by (apply (@test_requires fl_none LF); [reflexivity|];
        apply ordinary_not_char; [reflexivity | exact H]).
  rewrite (@replace_no_match fl_none (Class false [CChar TAB]) _ t)
    by (apply (test_single_none (single_class _ _ _));
        apply ordinary_not_class; [reflexivity | exact H]).
  rewrite (@replace_no_match fl_none (Class false [CChar FF; CChar VT]) _ t)
    by (apply (test_single_none (single_class _ _ _));
        apply ordinary_not_class; [reflexivity | exact H]).
  rewrite (@replace_no_match fl_none (Char RBRACE) _ t)
    by (apply (@test_requires fl_none RBRACE); [reflexivity|];
        apply ordinary_not_char; [reflexivity | exact H]).
  apply replace_no_match.
  apply (@test_requires fl_none LBRACE); [reflexivity|].
  apply ordinary_not_char; [reflexivity | exact H].
Qed.

Lemma neutralize_ordinary s :
  Forall (fun c => ordinary c = true) s ->
  Forall (fun c => ordinary c = true) (neutralize s).
Proof.
  intro H. rewrite neutralize_first_rule.
  apply replace_Forall; [reflexivity | repeat constructor | exact H].
Qed.

Lemma escape_text_ordinary s :
  Forall (fun c => ordinary c = true) s ->
  (length (neutralize s) <= maxLength)%nat ->
  escape_text s = neutralize s.
Proof.
  intros H L. unfold escape_text, escaped.
  rewrite (strip_ordinary (neutralize_ordinary H)).
  rewrite (escape_chain_ordinary (neutralize_ordinary H)).
  unfold truncate. apply Nat.ltb_ge in L. rewrite L. reflexivity.
Qed.

Lemma forallb_Forall_ordinary s :
  forallb ordinary s = true -> Forall (fun c => ordinary c = true) s.
Proof. intro H. apply Forall_forall. apply forallb_forall. exact H. Qed.

(** X5.  On a text of ordinary characters (none that a later step removes
    or rewrites) that is short enough not to be cut, escaping is the
    keyword step alone, and the escaped text has no whole word [tell] and
    no [end tell]. *)
Theorem escape_ordinary_text (s : str) :
  forallb ordinary s = true ->
  7 * N.of_nat (length s) <= 200000 ->
  escapeForAppleScript (VString s) = Return (neutralize s)
  /\ has_word "tell" (neutralize s) = false
  /\ test fl_i re_end_tell (neutralize s) = false.
Proof.
  intros H L. apply forallb_Forall_ordinary in H.
  split; [|apply neutralize_no_keyword].
  rewrite escape_of_string. f_equal. apply escape_text_ordinary; [exact H|].
  pose proof (neutralize_length s). pose proof maxLength_value. lia.
Qed.

Lemma escape_ordinary_text_witness :
  escapeForAppleScript (VString (lit "Please tell Anna"))
  = Return (neutralize (lit "Please tell Anna"))
  /\ has_word "tell" (neutralize (lit "Please tell Anna")) = false
  /\ test fl_i re_end_tell (neutralize (lit "Please tell Anna")) = false.
Proof.
  apply escape_ordinary_text; [reflexivity | vm_compute; discriminate].
Defined.

(** X6.  A text of ordinary characters that has no whole word [tell] and
    at most 50000 characters is escaped to itself. *)
Theorem escape_unchanged (s : str) :
  forallb ordinary s = true ->
  has_word "tell" s = false ->
  N.of_nat (length s) <= 50000 ->
  escapeForAppleScript (VString s) = Return s.
Proof.
  intros H W L. apply forallb_Forall_ordinary in H.
  assert (N : neutralize s = s).
  { rewrite neutralize_first_rule. apply replace_no_match.
    unfold test. rewrite test_tell_has_word. exact W. }
  rewrite escape_of_string. f_equal.
  rewrite escape_text_ordinary; [exact N | exact H |].
  rewrite N. pose proof maxLength_value. lia.
Qed.

Lemma escape_unchanged_witness :
  escapeForAppleScript (VString (lit "Shopping list: milk, eggs"))
  = Return (lit "Shopping list: milk, eggs").
Proof.
  apply escape_unchanged; [reflexivity | reflexivity | vm_compute; discriminate].
Defined.

(** X7.  The second keyword rule has no effect: after the first rule there
    is no [end tell] left for it. *)
Theorem end_tell_rule_without_effect (text : str) :
  replace fl_i re_end_tell (Template (lit "e_n_d_t_e_l_l"))
    (replace fl_i re_tell (Template (lit "t_e_l_l")) text)
  = replace fl_i re_tell (Template (lit "t_e_l_l")) text.
Proof.
  apply replace_no_match, no_tell_no_end_tell, replace_tell_no_tell.
Qed.

Lemma strip_no_control t :
  Forall (fun c => class_matches fl_none false
                     [CRange 0 8; CChar 11; CChar 12; CRange 14 31; CChar 127]
                     c = false) (strip t).
Proof.
  unfold strip.
  do 2 (apply replace_Forall; [reflexivity | constructor | ]).
  apply remove_single_none. apply single_class.
Qed.

(** X8.  The rule that turns form feeds and vertical tabs into spaces has
    no effect either: both characters are removed with the control
    characters before the chain of escapes begins. *)
Theorem form_feed_rule_without_effect (text : str) :
  escape_chain (strip text)
  = replace fl_none (Char LBRACE) (Template [])
      (replace fl_none (Char RBRACE) (Template [])
         (replace fl_none (Class false [CChar FF; CChar VT]) (Template [SP])
            (escape_chain_head (strip text))))
  /\ replace fl_none (Class false [CChar FF; CChar VT]) (Template [SP])
       (escape_chain_head (strip text))
     = escape_chain_head (strip text).
Proof.
  split; [reflexivity|].
  apply replace_no_match. apply (test_single_none (single_class _ _ _)).
  assert (H : Forall (fun c => class_matches fl_none false
                       [CRange 0 8; CChar 11; CChar 12; CRange 14 31;
                        CChar 127] c = false)
                (escape_chain_head (strip text))).
  { unfold escape_chain_head.
    do 6 (apply replace_Forall; [reflexivity | vm_compute; repeat constructor | ]).
    apply strip_no_control. }
  eapply Forall_impl; [|exact H]. intros c Hc.
  unfold class_matches in *.
  cbn [ignoreCase fl_none existsb item_matches xorb] in *.
  repeat (apply orb_false_iff in Hc; destruct Hc as [? Hc]).
  unfold FF, VT.
  repeat match goal with
         | E : ?x = false |- context [?x] => rewrite E
         end.
  reflexivity.
Qed.
(* ------------------------------------------------------------------ *)
(** * Reading the replies of the interpreter *)

Section SplitJoin.
Variable a : cu.
Variable sep' : str.
Let sep := a :: sep'.

Lemma starts_with_refl_app (w rest : str) : starts_with w (w ++ rest) = true.
Proof.
  induction w as [|c w IH]; [reflexivity|].
  cbn [app starts_with]. rewrite N.eqb_refl. exact IH.
Qed.

(** The characters of a piece without [a] are added to the piece. *)
Lemma split_go_piece p :
  ~ In a p ->
  forall cur rest,
    split_go sep 0 cur (p ++ rest) = split_go sep 0 (rev p ++ cur) rest.
Proof.
  induction p as [|c p IH]; intros Hp cur rest; [reflexivity|].
  cbn [app split_go]. unfold sep at 1. cbn [starts_with].
  destruct (N.eqb_spec a c) as [E|E].
  - exfalso. apply Hp. left. symmetry. exact E.
  - cbn [andb]. rewrite IH by (intro H; apply Hp; right; exact H).
    cbn [rev]. rewrite <- app_assoc. reflexivity.
Qed.

Lemma split_go_skip q :
  forall cur rest,
    split_go sep (length q) cur (q ++ rest) = split_go sep 0 cur rest.
Proof.
  induction q as [|c q IH]; intros cur rest; [reflexivity|].
  cbn [length app split_go]. apply IH.
Qed.

Lemma split_go_sep cur rest :
  split_go sep 0 cur (sep ++ rest) = rev cur :: split_go sep 0 [] rest.
Proof.
  unfold sep. cbn [app split_go].
  change (a :: sep' ++ rest) with ((a :: sep') ++ rest).
  rewrite starts_with_refl_app.
  replace (length (a :: sep') - 1)%nat with (length sep')
    by (cbn [length]; lia).
  apply f_equal. apply split_go_skip.
Qed.

(** Splitting what was joined gives the pieces back, when no piece has
    the first character of the separator. *)
Lemma split_join (pieces : list str) :
  pieces <> [] ->
  Forall (fun p => ~ In a p) pieces ->
  split sep (join_with sep pieces) = pieces.
Proof.
  intros Hne Hp. unfold split, sep. fold sep.
  induction pieces as [|p pieces IH]; [congruence|].
  inversion Hp as [|? ? Hp1 Hp2]; subst.
  destruct pieces as [|p2 pieces].
  - cbn [join_with]. rewrite <- (app_nil_r p) at 1.
    rewrite split_go_piece by exact Hp1. cbn [split_go].
    rewrite app_nil_r, rev_involutive. reflexivity.
  - change (join_with sep (p :: p2 :: pieces))
      with (p ++ sep ++ join_with sep (p2 :: pieces)).
    rewrite split_go_piece by exact Hp1. rewrite split_go_sep.
    rewrite app_nil_r, rev_involutive. f_equal.
    apply IH; [discriminate | exact Hp2].
Qed.

Lemma join_with_free (b : cu) (pieces : list str) :
  ~ In b sep -> Forall (fun p => ~ In b p) pieces ->
  ~ In b (join_with sep pieces).
Proof.
  intros Hs Hp. induction pieces as [|p pieces IH]; [intros []|].
  inversion Hp as [|? ? Hp1 Hp2]; subst.
  destruct pieces as [|p2 pieces]; [exact Hp1|].
  change (join_with sep (p :: p2 :: pieces))
    with (p ++ sep ++ join_with sep (p2 :: pieces)).
  intro H. apply in_app_or in H. destruct H as [H|H]; [exact (Hp1 H)|].
  apply in_app_or in H. destruct H as [H|H]; [exact (Hs H)|].
  exact (IH Hp2 H).
Qed.

Lemma join_with_In (c : cu) (f : str) (pieces : list str) :
  In f pieces -> In c f -> In c (join_with sep pieces).
Proof.
  intros Hf Hc. induction pieces as [|p pieces IH]; [destruct Hf|].
  destruct pieces as [|p2 pieces].
  - destruct Hf as [->|[]]. exact Hc.
  - change (join_with sep (p :: p2 :: pieces))
      with (p ++ sep ++ join_with sep (p2 :: pieces)).
    destruct Hf as [->|Hf].
    + apply in_or_app. left. exact Hc.
    + apply in_or_app. right. apply in_or_app. right. exact (IH Hf).
Qed.
End SplitJoin.

Lemma trimmed_or_empty_nth parts i :
  trimmed_or_empty (nth_error parts i) = trim (nth i parts []).
Proof.
  revert i. induction parts as [|p parts IH]; intros [|i]; try reflexivity.
  - cbn [nth_error nth trimmed_or_empty]. destruct (trim p); reflexivity.
  - cbn [nth_error nth]. apply IH.
Qed.

Lemma drop_space_all s :
  Forall (fun c => is_space c = true) s -> drop_space s = [].
Proof.
  induction 1 as [|c s Hc Hs IH]; [reflexivity|].
  cbn [drop_space]. rewrite Hc. exact IH.
Qed.

Lemma drop_space_nil s :
  drop_space s = [] -> Forall (fun c => is_space c = true) s.
Proof.
  induction s as [|c s IH]; [constructor|]. cbn [drop_space].
  destruct (is_space c) eqn:E; [|discriminate].
  intro H. constructor; [exact E | exact (IH H)].
Qed.

Lemma trim_blank s :
  Forall (fun c => is_space c = true) s -> trim s = [].
Proof. intro H. unfold trim. rewrite (drop_space_all H). reflexivity. Qed.

Lemma trim_nil s : trim s = [] -> Forall (fun c => is_space c = true) s.
Proof.
  unfold trim. intro H. apply (f_equal (@rev cu)) in H.
  rewrite rev_involutive in H. cbn [rev] in H.
  apply drop_space_nil in H. apply drop_space_nil.
  apply Forall_rev in H. rewrite rev_involutive in H.
  destruct (drop_space s) eqn:E; [reflexivity|].
  pose proof (drop_space_first s) as F. rewrite E in F.
  cbn [space_first] in F. inversion H; subst. congruence.
Qed.

Lemma split_bars (fields : list str) :
  Forall (fun f => ~ In 124 f) fields ->
  map trim (split (lit "|||") (join_with (lit "|||") fields))
  = match fields with [] => [[]] | _ => map trim fields end.
Proof.
  intro H. destruct fields as [|f fields]; [reflexivity|].
  change (lit "|||") with (124 :: [124; 124]).
  rewrite split_join; [reflexivity | discriminate | exact H].
Qed.

Lemma nth_map_trim i (l : list str) : nth i (map trim l) [] = trim (nth i l []).
Proof.
  change (@nil cu) with (trim []) at 1. apply map_nth.
Qed.

Lemma trimmed_field i (fields : list str) :
  Forall (fun f => ~ In 124 f) fields ->
  trimmed_or_empty
    (nth_error (split (lit "|||") (join_with (lit "|||") fields)) i)
  = trim (nth i fields []).
Proof.
  intro H. rewrite trimmed_or_empty_nth, <- nth_map_trim, (split_bars H).
  destruct fields as [|f fields]; [destruct i as [|[|i]]; reflexivity|].
  apply nth_map_trim.
Qed.

(** X15.  [show] reads its reply as fields between [|||]: the id, the name
    and the body are the first three, trimmed, and what follows a third
    [|||] is dropped.  (For fields that have no [|].) *)
Theorem show_result_fields (fields : list str) :
  Forall (fun f => ~ In 124 f) fields ->
  Replies.show_result (join_with (lit "|||") fields)
  = {| Replies.shown_id := trim (nth 0 fields []);
       Replies.shown_name := trim (nth 1 fields []);
       Replies.shown_body := trim (nth 2 fields []) |}.
Proof.
  intro H. unfold Replies.show_result. cbv zeta.
  rewrite !(trimmed_field _ H). reflexivity.
Qed.

Lemma show_result_fields_witness :
  Replies.show_result
    (join_with (lit "|||") [lit "x-1"; lit " Plan "; lit "<p>a</p>"; lit "b"])
  = {| Replies.shown_id := lit "x-1";
       Replies.shown_name := lit "Plan";
       Replies.shown_body := lit "<p>a</p>" |}.
Proof.
  apply (@show_result_fields [lit "x-1"; lit " Plan "; lit "<p>a</p>"; lit "b"]).
  repeat constructor; vm_compute; intuition discriminate.
Defined.

Lemma note_of_piece_fields (fields : list str) :
  Forall (fun f => ~ In 124 f) fields ->
  Replies.note_of_piece (join_with (lit "|||") fields) = note_of_fields fields.
Proof.
  intro H. unfold Replies.note_of_piece, note_of_fields. cbv zeta.
  rewrite !(trimmed_field _ H). reflexivity.
Qed.

(** X16.  [list] reads its reply as notes between [###], each with its
    fields between [|||]: it returns, in order, the notes whose trimmed id
    and name are not empty, with their five fields trimmed.  (For fields
    that have no [#] and no [|].) *)
Theorem list_result_records (records : list (list str)) :
  Forall (Forall (fun f => ~ In 35 f /\ ~ In 124 f)) records ->
  Replies.list_result
    (join_with (lit "###") (map (join_with (lit "|||")) records))
  = filter has_id_and_name (map note_of_fields records).
Proof.
  intro H.
  set (result := join_with (lit "###") (map (join_with (lit "|||")) records)).
  assert (Hbars : Forall (Forall (fun f => ~ In 124 f)) records).
  { eapply Forall_impl; [|exact H]. intros r Hr.
    eapply Forall_impl; [|exact Hr]. intros f Hf. exact (proj2 Hf). }
  assert (Hmap : map Replies.note_of_piece (map (join_with (lit "|||")) records)
                 = map note_of_fields records).
  { rewrite map_map. apply map_ext_in. intros r Hr.
    apply note_of_piece_fields.
    rewrite Forall_forall in Hbars. exact (Hbars r Hr). }
  unfold Replies.list_result. fold result.
  destruct (negb (nonempty result) || negb (nonempty (trim result))) eqn:G.
  - (* a blank reply: every field is blank *)
    assert (Hblank : Forall (fun c => is_space c = true) result).
    { apply orb_prop in G. destruct G as [G|G]; apply negb_true_iff in G.
      - destruct result; [constructor | discriminate].
      - apply trim_nil. destruct (trim result); [reflexivity | discriminate]. }
    symmetry. rewrite Forall_forall in Hblank.
    assert (Hall : forall r, In r records ->
                             has_id_and_name (note_of_fields r) = false).
    { intros r Hr. unfold has_id_and_name, note_of_fields. cbn.
      replace (trim (nth 0 r [])) with (@nil cu); [reflexivity|].
      symmetry. apply trim_blank. apply Forall_forall. intros c Hc.
      apply Hblank. unfold result.
      change (lit "###") with (35 :: [35; 35]).
      destruct r as [|f r']; [destruct Hc|]. cbn [nth] in Hc.
      apply join_with_In with (f := join_with (lit "|||") (f :: r')).
      - apply in_map. exact Hr.
      - change (lit "|||") with (124 :: [124; 124]).
        apply join_with_In with (f := f); [left; reflexivity | exact Hc]. }
    clear - Hall. induction records as [|r records IH]; [reflexivity|].
    cbn [map filter]. rewrite (Hall r (or_introl eq_refl)).
    apply IH. intros r' Hr'. apply Hall. right. exact Hr'.
  - destruct records as [|r0 records'].
    { cbn in G. discriminate. }
    set (records := r0 :: records') in *.
    assert (Hsplit : split (lit "###") result
                     = map (join_with (lit "|||")) records).
    { unfold result. change (lit "###") with (35 :: [35; 35]).
      apply split_join; [discriminate|].
      apply Forall_forall. intros p Hp. apply in_map_iff in Hp.
      destruct Hp as (r & <- & Hr).
      change (lit "|||") with (124 :: [124; 124]).
      apply join_with_free; [vm_compute; intuition discriminate|].
      rewrite Forall_forall in H. specialize (H r Hr).
      eapply Forall_impl; [|exact H]. intros f Hf. exact (proj1 Hf). }
    rewrite Hsplit, Hmap. reflexivity.
Qed.

Lemma list_result_records_witness :
  Replies.list_result
    (join_with (lit "###")
       (map (join_with (lit "|||"))
          [[lit "x-1"; lit "Plan"; lit "Notes"; lit "Mon"; lit "Tue"];
           [lit " "; lit "No id"]]))
  = filter has_id_and_name
      (map note_of_fields
         [[lit "x-1"; lit "Plan"; lit "Notes"; lit "Mon"; lit "Tue"];
          [lit " "; lit "No id"]]).
Proof.
  apply list_result_records.
  repeat constructor; vm_compute; intuition discriminate.
Defined.

(* ------------------------------------------------------------------ *)
(** * notes-cli: the arguments of note create *)

Lemma create_loop (l : list str) :
  forall folder bodyArgs,
    fold_left NotesCLI.create_step l (folder, bodyArgs)
    = (match rev (filter (starts_with (lit "@")) l) with
       | arg :: _ => Some (skipn 1 arg)
       | [] => folder
       end,
       bodyArgs ++ filter (fun arg => negb (starts_with (lit "@") arg)) l).
Proof.
  induction l as [|arg l IH]; intros folder bodyArgs.
  - cbn. rewrite app_nil_r. reflexivity.
  - cbn [fold_left filter]. unfold NotesCLI.create_step at 2.
    destruct (starts_with (lit "@") arg) eqn:E; rewrite IH; cbn [negb rev].
    + f_equal. destruct (rev (filter (starts_with (lit "@")) l)); reflexivity.
    + rewrite <- app_assoc. reflexivity.
Qed.

(** X17.  Of the arguments after the title, [note create] takes those that
    start with [@] as folder names, of which the last one counts, and
    joins all the others with spaces to make the body; the title itself is
    never read as a folder. *)
Theorem create_arguments_spec (args : list str) :
  NotesCLI.create_arguments args
  = (match rev (filter (starts_with (lit "@")) (skipn 3 args)) with
     | arg :: _ => Some (skipn 1 arg)
     | [] => None
     end,
     nth_error args 2,
     join_with [SP]
       (filter (fun arg => negb (starts_with (lit "@") arg)) (skipn 3 args))).
Proof.
  unfold NotesCLI.create_arguments. rewrite create_loop. reflexivity.
Qed.
(* ------------------------------------------------------------------ *)
(** * validateInput: the failures of a title *)

(** C8, the claim as it is worded fails: the length is tested before the
    white space, so a title of 256 spaces is too long, not empty; and the
    empty string has the wrong type. *)
Lemma blank_title_too_long :
  forallb is_space (repeat SP 256) = true
  /\ validateInput (VString (repeat SP 256)) "title" = Throw TooLong
  /\ validateInput (VString (repeat SP 256)) "title" <> Throw EmptyInput
  /\ validateInput (VString []) "title" = Throw InvalidType.
Proof.
  split; [vm_compute; reflexivity|]. split; [vm_compute; reflexivity|].
  split; [vm_compute; discriminate | reflexivity].
Qed.

(** C8, amended.  A title fails as an empty input exactly when it is a
    string of 1 to 255 characters that are all white space, as too long
    exactly when it is a string of more than 255 characters, and for its
    type exactly when it is the empty string or no string; no title
    fails in another way. *)
Theorem validate_title_errors (v : value) :
  (validateInput v "title" = Throw EmptyInput
   <-> exists s, v = VString s /\ s <> [] /\ (length s <= 255)%nat
                 /\ forallb is_space s = true)
  /\ (validateInput v "title" = Throw TooLong
      <-> exists s, v = VString s /\ (255 < length s)%nat)
  /\ (validateInput v "title" = Throw InvalidType
      <-> is_string v && truthy v = false)
  /\ (forall e, validateInput v "title" = Throw e ->
                e = EmptyInput \/ e = TooLong \/ e = InvalidType).
Proof.
  destruct v as [| | b | n | s];
    try (cbn [validateInput is_string truthy andb];
         repeat split; try discriminate; try reflexivity;
         [ intros (s & H & _); discriminate H
         | intros (s & H & _); discriminate H
         | intros e H; injection H as <-; right; right; reflexivity ]).
  destruct s as [|c s].
  - cbn [validateInput is_string truthy andb negb].
    repeat split; try discriminate; try reflexivity.
    + intros (s & H & Hs & _). injection H as <-. congruence.
    + intros (s & H & L). injection H as <-. cbn [length] in L. lia.
    + intros e H. injection H as <-. right; right; reflexivity.
  - set (t := c :: s). unfold validateInput.
    change (truthy (VString t)) with true.
    cbn [negb String.eqb Ascii.eqb Bool.eqb andb is_string].
    destruct (Nat.ltb 255 (length t)) eqn:L.
    + apply Nat.ltb_lt in L. repeat split; try discriminate.
      * intros (s' & H & _ & L' & _). injection H as <-. lia.
      * intros _. exists t. split; [reflexivity | exact L].
      * intros e H. injection H as <-. right; left; reflexivity.
    + apply Nat.ltb_ge in L.
      destruct (Nat.eqb (length (trim t)) 0) eqn:E.
      * apply Nat.eqb_eq in E. apply length_zero_iff_nil in E.
        apply trim_nil in E. repeat split; try discriminate.
        -- intros _. exists t. split; [reflexivity|].
           split; [discriminate|]. split; [exact L|].
           apply forallb_forall. rewrite Forall_forall in E. exact E.
        -- intros (s' & H & L'). injection H as <-. lia.
        -- intros e H. injection H as <-. left; reflexivity.
      * apply Nat.eqb_neq in E. repeat split; try discriminate.
        -- intros (s' & H & _ & _ & B). injection H as <-.
           exfalso. apply E. rewrite trim_blank; [reflexivity|].
           apply Forall_forall. apply forallb_forall. exact B.
        -- intros (s' & H & L'). injection H as <-. lia.
Qed.

Lemma validate_title_errors_witness :
  validateInput (VString (lit "   ")) "title" = Throw EmptyInput
  /\ validateInput (VString (repeat 97 256)) "title" = Throw TooLong
  /\ validateInput VNull "title" = Throw InvalidType.
Proof.
  split; [|split].
  - apply (proj2 (proj1 (validate_title_errors (VString (lit "   "))))).
    exists (lit "   ").
    split; [reflexivity|]. split; [discriminate|].
    split; [apply Nat.leb_le; reflexivity | reflexivity].
  - apply (proj2 (proj1 (proj2 (validate_title_errors
                                  (VString (repeat 97 256)))))).
    exists (repeat 97 256).
    split; [reflexivity | apply Nat.ltb_lt; reflexivity].
  - apply (proj2 (proj1 (proj2 (proj2 (validate_title_errors VNull))))).
    reflexivity.
Defined.
(* ------------------------------------------------------------------ *)
(** * convertToHTML and convertHTMLToMarkdown: the shape of the result *)

(** X12.  The HTML that [convertToHTML] returns has no newline: the last
    rule turns every newline that is left into a [<br>]. *)
Theorem render_has_no_newline (s : str) :
  exists html, convertToHTML (VString s) = Return html /\ ~ In LF html.
Proof.
  exists (render_text s). split; [reflexivity|].
  assert (H : Forall (fun c => (c =? LF) = false) (render_text s)).
  { unfold render_text. cbv zeta.
    apply Forall_app; split; [vm_compute; repeat constructor|].
    apply Forall_app; split; [vm_compute; repeat constructor|].
    apply Forall_app; split; [|vm_compute; repeat constructor].
    apply replace_single_kills with (p := char_matches fl_none LF);
      [apply single_char | reflexivity | vm_compute; repeat constructor |].
    intros c Hc. apply N.eqb_eq in Hc. subst c. reflexivity. }
  rewrite Forall_forall in H. intro Hin. apply H in Hin. discriminate Hin.
Qed.

(** X14.  The Markdown that [convertHTMLToMarkdown] returns neither begins
    nor ends with white space, whatever the HTML. *)
Theorem extract_is_trimmed (s : str) :
  exists md, convertHTMLToMarkdown (VString s) = Return md
             /\ is_trimmed md = true.
Proof.
  destruct s as [|c s].
  - exists []. split; reflexivity.
  - exists (extract_text (c :: s)). split; [reflexivity|].
    unfold extract_text. cbv zeta.
    match goal with
    | |- is_trimmed (let '(_, _) := ?p in _) = true => destruct p
    end.
    apply trim_is_trimmed.
Qed.
(* ------------------------------------------------------------------ *)
(** * sanitizeHTML: the texts it returns as they are *)

(** X10.  [sanitizeHTML] returns a text as it is exactly when the text has
    no match of a pattern of the denylist; any other text comes back
    shorter. *)
Theorem sanitize_fixed_points (h : str) :
  (sanitizeHTML (VString h) = Return h <-> clean h = true)
  /\ (clean h = false ->
      exists out, sanitizeHTML (VString h) = Return out
                  /\ (length out < length h)%nat).
Proof.
  assert (Hfix : sanitize_text h = h <-> clean h = true).
  { rewrite sanitize_text_fold. split.
    - apply removes_fixed. reflexivity.
    - apply removes_clean. }
  split.
  - unfold sanitizeHTML. cbn [as_string]. rewrite <- Hfix. split.
    + intro H. injection H as H. exact H.
    + intro H. rewrite H. reflexivity.
  - intro Hc. exists (sanitize_text h). split; [reflexivity|].
    pose proof (removes_subsequence denylist h) as Hsub.
    rewrite <- sanitize_text_fold in Hsub.
    pose proof (subsequence_length Hsub) as L.
    destruct (Nat.eq_dec (length (sanitize_text h)) (length h)) as [E|E];
      [|lia].
    apply (subsequence_same_length Hsub) in E. apply Hfix in E. congruence.
Qed.

Lemma sanitize_fixed_points_witness :
  exists out, sanitizeHTML (VString sample_html) = Return out
              /\ (length out < length sample_html)%nat.
Proof.
  apply (proj2 (sanitize_fixed_points sample_html)).
  vm_compute. reflexivity.
Defined.
(* ------------------------------------------------------------------ *)
(** * sanitizeHTML: a script element *)

Lemma m_chars_of fl (w w' : str) :
  Forall2 (fun a c => char_matches fl a c = true) w w' ->
  forall rest k b cs,
    m fl (chars_of w) k {| before := b; after := w' ++ rest; caps := cs |}
    = k {| before := rev w' ++ b; after := rest; caps := cs |}.
Proof.
  induction 1 as [|a c w w' Hac Hw IH]; intros rest k b cs; [reflexivity|].
  destruct Hw as [|a2 c2 w2 w2' Hac2 Hw2].
  - cbn [chars_of m]. unfold step_char. cbn [after app].
    rewrite Hac. reflexivity.
  - change (chars_of (a :: a2 :: w2))
      with (Seq (Char a) (chars_of (a2 :: w2))).
    change ((c :: c2 :: w2') ++ rest) with (c :: (c2 :: w2') ++ rest).
    cbn [m]. unfold step_char at 1. cbn [after].
    rewrite Hac. unfold advance. cbn [before caps].
    rewrite (IH rest k (c :: b) cs).
    cbn [rev]. rewrite <- !app_assoc. reflexivity.
Qed.

(** A greedy quantified character goes over all the characters that
    satisfy its test, and the match is found there when the rest of the
    pattern matches there. *)
Lemma repeat_char_greedy (p : cu -> bool) (k : cont) (z : mstate) (pre : str) :
  forall rest b fuel,
    forallb p pre = true ->
    match rest with c :: _ => p c = false | [] => True end ->
    (length pre < fuel)%nat ->
    k {| before := rev pre ++ b; after := rest; caps := [] |} = Hit z ->
    repeat_matcher (step_char p) [] true k fuel 0 None
      {| before := b; after := pre ++ rest; caps := [] |} = Hit z.
Proof.
  induction pre as [|c pre IH]; intros rest b fuel Hp Hrest Hfuel Hk.
  - destruct fuel as [|fuel]; [cbn [length] in Hfuel; lia|].
    cbn [repeat_matcher Nat.eqb negb app rev]. cbn [app rev] in Hk.
    unfold step_char. cbn [after clear_caps].
    destruct rest as [|c rest]; [exact Hk|].
    rewrite Hrest. exact Hk.
  - destruct fuel as [|fuel]; [cbn [length] in Hfuel; lia|].
    cbn [forallb] in Hp. apply andb_prop in Hp. destruct Hp as [Hc Hp].
    cbn [repeat_matcher Nat.eqb negb app].
    unfold step_char at 1. cbn [after clear_caps]. rewrite Hc.
    unfold advance. cbn [before after caps clear_caps filter].
    cbn [andb length].
    replace (Nat.eqb (length (pre ++ rest)) (S (length (pre ++ rest))))
      with false by (symmetry; apply Nat.eqb_neq; lia).
    cbn [Nat.pred option_map].
    rewrite (IH rest (c :: b) fuel Hp Hrest); [reflexivity | |].
    + cbn [length] in Hfuel. lia.
    + cbn [rev] in Hk. rewrite <- app_assoc in Hk. exact Hk.
Qed.

Lemma none_of_lt c : c <> 60 -> class_matches fl_i true [CChar 60] c = true.
Proof.
  intro H. unfold class_matches. cbn [ignoreCase fl_i existsb].
  unfold item_matches_i, canonicalize, is_lower, is_upper.
  cbn [item_matches].
  assert (E1 : (60 =? c) = false) by (apply N.eqb_neq; lia).
  rewrite E1. cbn [orb].
  destruct (in_range 97 122 c) eqn:El.
  - apply in_range_spec in El.
    assert (E2 : (60 =? c - 32) = false) by (apply N.eqb_neq; lia).
    rewrite E2. cbn [orb].
    destruct (in_range 65 90 c) eqn:Eu; [|reflexivity].
    apply in_range_spec in Eu. lia.
  - rewrite E1. cbn [orb].
    destruct (in_range 65 90 c) eqn:Eu; [|reflexivity].
    apply in_range_spec in Eu.
    assert (E2 : (60 =? c + 32) = false) by (apply N.eqb_neq; lia).
    rewrite E2. reflexivity.
Qed.

Lemma none_of_lt_all s :
  ~ In 60 s -> forallb (class_matches fl_i true [CChar 60]) s = true.
Proof.
  intro H. apply forallb_forall. intros c Hc. apply none_of_lt.
  intros ->. exact (H Hc).
Qed.

Lemma same_chars fl (w : str) :
  Forall2 (fun a c => char_matches fl a c = true) w w.
Proof.
  induction w as [|a w IH]; constructor; [|exact IH].
  unfold char_matches. destruct (ignoreCase fl); apply N.eqb_refl.
Qed.

(** A greedy quantifier whose body fails at once goes on with the rest of
    the pattern. *)
Lemma repeat_stops mr gs (k : cont) fuel x :
  (forall d, mr d (clear_caps gs x) = Miss) ->
  repeat_matcher mr gs true k (S fuel) 0 None x = k x.
Proof.
  intro H. cbn [repeat_matcher Nat.eqb negb]. rewrite H. reflexivity.
Qed.

(** The match of the script pattern at the start of a script element
    without [<] inside is the whole element. *)
Lemma exec_script_element (bef inner post : str) :
  ~ In 60 inner ->
  match inner with c :: _ => is_word c = false | [] => True end ->
  exec fl_i re_script_block
    (start_at bef (lit "<script" ++ inner ++ lit "</script>" ++ post))
  = Some {| before := rev (lit "</script>") ++ rev inner
                      ++ rev (lit "<script") ++ bef;
            after := post; caps := [] |}.
Proof.
  intros Hlt Hhd. unfold exec, re_script_block, start_at, chars.
  cbn [m].
  rewrite (@m_chars_of fl_i _ _ (same_chars fl_i (lit "<script"))).
  assert (Hb : xorb (word_before {| before := rev (lit "<script") ++ bef;
                                    after := inner ++ lit "</script>" ++ post;
                                    caps := [] |})
                    (word_after {| before := rev (lit "<script") ++ bef;
                                   after := inner ++ lit "</script>" ++ post;
                                   caps := [] |}) = true).
  { unfold word_before, word_after. cbn [before after].
    destruct inner as [|c inner']; [reflexivity|].
    cbn [app]. rewrite Hhd. reflexivity. }
  rewrite Hb. unfold star at 1, none_of at 1.
  change (map CChar (lit "<")) with [CChar 60].
  cbn [m after Nat.add].
  erewrite (@repeat_char_greedy (class_matches fl_i true [CChar 60]));
    [reflexivity | apply none_of_lt_all, Hlt | reflexivity
    | rewrite length_app; lia |].
  unfold star at 1. cbn [m after Nat.add].
  rewrite repeat_stops.
  - rewrite (@m_chars_of fl_i _ _ (same_chars fl_i (lit "</script>"))).
    reflexivity.
  - intro d. cbv beta. unfold clear_caps. cbn [before after caps filter].
    rewrite (@m_chars_of fl_i _ _ (same_chars fl_i (lit "</script>"))).
    reflexivity.
Qed.

Lemma exec_script_needs_lt bef c rest :
  c <> 60 -> exec fl_i re_script_block (start_at bef (c :: rest)) = None.
Proof.
  intro H. unfold exec, re_script_block, chars.
  change (chars_of (lit "<script"))
    with (Seq (Char 60) (chars_of (lit "script"))).
  cbn [m]. unfold step_char. cbn [after start_at].
  rewrite char_matches_i_plain by reflexivity.
  replace (60 =? c) with false by (symmetry; apply N.eqb_neq; congruence).
  reflexivity.
Qed.

Lemma exec_script_end bef :
  exec fl_i re_script_block (start_at bef []) = None.
Proof. reflexivity. Qed.

(** The scan passes the characters of a match without looking at them. *)
Lemma replace_go_skip fl r rep (a b : str) :
  forall bef,
    replace_go fl r rep (length a) bef (a ++ b)
    = replace_go fl r rep 0 (rev a ++ bef) b.
Proof.
  induction a as [|c a IH]; intro bef; [reflexivity|].
  cbn [length app replace_go rev]. rewrite IH, <- app_assoc. reflexivity.
Qed.

(** A match that is removed: the scan goes on after it. *)
Lemma remove_go_match fl r (a b bef : str) z :
  a <> [] ->
  exec fl r (start_at bef (a ++ b)) = Some z ->
  after z = b ->
  replace_go fl r (Template []) 0 bef (a ++ b)
  = replace_go fl r (Template []) 0 (rev a ++ bef) b.
Proof.
  intros Ha Hz Hb. destruct a as [|c a]; [congruence|].
  cbn [app] in *. cbn [replace_go]. rewrite Hz.
  cbn [substitute expand app]. rewrite Hb.
  replace (length (c :: a ++ b) - length b)%nat with (S (length a))
    by (cbn [length]; rewrite length_app; lia).
  rewrite replace_go_skip. cbn [rev]. rewrite <- app_assoc. reflexivity.
Qed.

(** The scan for script elements copies a text without [<]. *)
Lemma remove_script_prefix (a b : str) :
  ~ In 60 a ->
  forall bef,
    replace_go fl_i re_script_block (Template []) 0 bef (a ++ b)
    = a ++ replace_go fl_i re_script_block (Template []) 0 (rev a ++ bef) b.
Proof.
  induction a as [|c a IH]; intros Ha bef; [reflexivity|].
  cbn [app replace_go].
  rewrite exec_script_needs_lt by (intros ->; apply Ha; left; reflexivity).
  rewrite IH by (intro H; apply Ha; right; exact H).
  cbn [rev]. rewrite <- app_assoc. reflexivity.
Qed.

Lemma remove_script_element (pre inner post : str) :
  ~ In 60 pre -> ~ In 60 inner -> ~ In 60 post ->
  match inner with c :: _ => is_word c = false | [] => True end ->
  remove re_script_block
    (pre ++ lit "<script" ++ inner ++ lit "</script>" ++ post)
  = pre ++ post.
Proof.
  intros Hpre Hin Hpost Hhd. unfold remove, replace.
  rewrite remove_script_prefix by exact Hpre. f_equal.
  rewrite !app_assoc.
  erewrite remove_go_match;
    [ | destruct inner; discriminate
      | rewrite <- !app_assoc; apply exec_script_element; assumption
      | reflexivity ].
  rewrite <- (app_nil_r post) at 1.
  rewrite remove_script_prefix by exact Hpost.
  cbn [replace_go]. rewrite exec_script_end. apply app_nil_r.
Qed.

(** X11.  A script element that has no [<] between its opening [<script] and
    its closing tag is removed whole by [sanitizeHTML], whatever the
    attributes and the code inside, and the text around it is kept when
    it has no [<], [=] and [:]. *)
Theorem sanitize_removes_script_element (pre inner post : str) :
  ~ In 60 pre -> ~ In 61 pre -> ~ In 58 pre ->
  ~ In 60 post -> ~ In 61 post -> ~ In 58 post ->
  ~ In 60 inner ->
  match inner with c :: _ => is_word c = false | [] => True end ->
  sanitizeHTML
    (VString (pre ++ lit "<script" ++ inner ++ lit "</script>" ++ post))
  = Return (pre ++ post).
Proof.
  intros P60 P61 P58 Q60 Q61 Q58 Hin Hhd.
  unfold sanitizeHTML. cbn [as_string]. f_equal.
  rewrite sanitize_text_fold.
  change (fold_left (fun text r => remove r text)
            (re_handler :: re_javascript :: map re_tag dangerous)
            (remove re_script_block
               (pre ++ lit "<script" ++ inner ++ lit "</script>" ++ post))
          = pre ++ post).
  rewrite remove_script_element by assumption.
  assert (N60 : ~ In 60 (pre ++ post))
    by (intro H; apply in_app_or in H; tauto).
  assert (N61 : ~ In 61 (pre ++ post))
    by (intro H; apply in_app_or in H; tauto).
  assert (N58 : ~ In 58 (pre ++ post))
    by (intro H; apply in_app_or in H; tauto).
  apply removes_clean.
  pose proof (@free_of_char_i 60 _ eq_refl eq_refl N60) as F60.
  pose proof (@free_of_char_i 61 _ eq_refl eq_refl N61) as F61.
  pose proof (@free_of_char_i 58 _ eq_refl eq_refl N58) as F58.
  unfold dangerous. cbn [map forallb].
  rewrite (@test_requires fl_i 61 re_handler _ eq_refl F61).
  rewrite (@test_requires fl_i 58 re_javascript _ eq_refl F58).
  rewrite !(fun tag H => @test_requires fl_i 60 (re_tag tag) _ H F60)
    by reflexivity.
  reflexivity.
Qed.

Lemma sanitize_removes_script_element_witness :
  sanitizeHTML
    (VString (lit "Hello " ++ lit "<script"
              ++ lit " type='text/javascript'>alert(1)"
              ++ lit "</script>" ++ lit " world"))
  = Return (lit "Hello " ++ lit " world").
Proof.
  apply sanitize_removes_script_element;
    vm_compute; try reflexivity; intuition discriminate.
Defined.
